(** * Prompt Manager: the version parser, the prompt repository and the view

    A shallow embedding of [promptView.ts] and [main.ts].  JavaScript strings
    are sequences of UTF-16 code units; the regular expression of
    [extractPromptData] is kept as a pattern and run by a backtracking
    matcher; numbers are IEEE-754 binary64 values ([spec_float] with
    precision 53 and maximal exponent 1024); the host application (vault,
    clipboard) is an interface. *)

From Stdlib Require Import ZArith NArith Lia Bool Ascii String.
From Stdlib Require Import Floats.SpecFloat.
From Stdlib Require Import Sorting.Sorted.
From stdpp Require Import base tactics option list.

(** ** JavaScript strings *)

(** A string is its sequence of UTF-16 code units. *)
Definition jsstring := list N.

Definition LF : N := 10.

(** Reads a literal the way the TypeScript source writes it: a backslash
    followed by [n] is the line feed, every other character is its code. *)
Fixpoint js_chars (l : list ascii) : jsstring :=
  match l with
  | [] => []
  | "\"%char :: "n"%char :: l' => LF :: js_chars l'
  | a :: l' => N_of_ascii a :: js_chars l'
  end.

Definition js (s : string) : jsstring := js_chars (list_ascii_of_string s).

Arguments js s : simpl never.

(** [WhiteSpace] and [LineTerminator] of ECMAScript: the class [\s] of a
    pattern and the characters [String.prototype.trim] removes. *)
Definition is_space (c : N) : bool :=
  ((9 <=? c) && (c <=? 13) || (c =? 32) || (c =? 160) || (c =? 5760)
   || (8192 <=? c) && (c <=? 8202) || (c =? 8232) || (c =? 8233)
   || (c =? 8239) || (c =? 8287) || (c =? 12288) || (c =? 65279))%N.

(** The class [\d] of a pattern without the [u] flag: the ten ASCII digits. *)
Definition is_digit (c : N) : bool := ((48 <=? c) && (c <=? 57))%N.

(** The class [[\s\S]]: every code unit. *)
Definition any_char (c : N) : bool := is_space c || negb (is_space c).

Fixpoint trimStart (s : jsstring) : jsstring :=
  match s with
  | c :: s' => if is_space c then trimStart s' else s
  | [] => []
  end.

Definition trimEnd (s : jsstring) : jsstring := rev (trimStart (rev s)).

Definition trim (s : jsstring) : jsstring := trimEnd (trimStart s).

(** [prefix.startsWith]: the rest of [s] after the prefix [p], if [s] starts
    with it. *)
Fixpoint strip_prefix (p s : jsstring) : option jsstring :=
  match p, s with
  | [], _ => Some s
  | a :: p', b :: s' => if (a =? b)%N then strip_prefix p' s' else None
  | _ :: _, [] => None
  end.

(** [Array.prototype.join]. *)
Fixpoint join (sep : jsstring) (l : list jsstring) : jsstring :=
  match l with
  | [] => []
  | [x] => x
  | x :: l' => x ++ sep ++ join sep l'
  end.

(** [String.prototype.includes]: [t] occurs in [s] as a substring. *)
Fixpoint includes (s t : jsstring) : bool :=
  match strip_prefix t s with
  | Some _ => true
  | None => match s with
            | [] => false
            | _ :: s' => includes s' t
            end
  end.

(** ** Regular expressions

    The fragment of the pattern syntax that [extractPromptData] uses, with
    ECMAScript's backtracking semantics: alternatives are tried left to
    right, a greedy quantifier tries the longest repetition first, a lazy one
    the shortest, and a lookahead consumes nothing. *)
Module RegExp.

Inductive regex :=
| Chars (l : jsstring)            (* literal characters *)
| Class (p : N -> bool)           (* one code unit of a class *)
| Seq (r1 r2 : regex)
| Alt (r1 r2 : regex)             (* r1|r2 *)
| Opt (r : regex)                 (* (?:r)? *)
| Plus (p : N -> bool)            (* c+ over a class, greedy *)
| LazyStar (p : N -> bool)        (* c*? over a class *)
| Group (n : nat) (r : regex)     (* the n-th capturing group *)
| Ahead (r : regex).              (* (?=r) *)

(** The captures made so far, latest first. *)
Definition captures := list (nat * jsstring).

(** A continuation: the rest of the pattern, run on the rest of the input. *)
Definition cont := jsstring -> captures -> option (jsstring * captures).

Fixpoint star_greedy (p : N -> bool) (s : jsstring) (caps : captures) (k : cont)
  : option (jsstring * captures) :=
  match s with
  | c :: s' =>
      if p c then
        match star_greedy p s' caps k with
        | Some r => Some r
        | None => k s caps
        end
      else k s caps
  | [] => k s caps
  end.

Fixpoint star_lazy (p : N -> bool) (s : jsstring) (caps : captures) (k : cont)
  : option (jsstring * captures) :=
  match k s caps with
  | Some r => Some r
  | None =>
      match s with
      | c :: s' => if p c then star_lazy p s' caps k else None
      | [] => None
      end
  end.

Fixpoint run (r : regex) (s : jsstring) (caps : captures) (k : cont)
  : option (jsstring * captures) :=
  match r with
  | Chars l =>
      match strip_prefix l s with
      | Some s' => k s' caps
      | None => None
      end
  | Class p =>
      match s with
      | c :: s' => if p c then k s' caps else None
      | [] => None
      end
  | Seq r1 r2 => run r1 s caps (fun s' caps' => run r2 s' caps' k)
  | Alt r1 r2 =>
      match run r1 s caps k with
      | Some x => Some x
      | None => run r2 s caps k
      end
  | Opt r1 =>
      match run r1 s caps k with
      | Some x => Some x
      | None => k s caps
      end
  | Plus p =>
      match s with
      | c :: s' => if p c then star_greedy p s' caps k else None
      | [] => None
      end
  | LazyStar p => star_lazy p s caps k
  | Group n r1 =>
      run r1 s caps
        (fun s' caps' => k s' ((n, take (length s - length s') s) :: caps'))
  | Ahead r1 =>
      match run r1 s caps (fun s' caps' => Some (s', caps')) with
      | Some (_, caps') => k s caps'
      | None => None
      end
  end.

(** One element of the array [matchAll] yields: [v[0]] is the matched text,
    [v[n]] the text of group [n]. *)
Record Match := { matched : jsstring; groups : captures }.

Fixpoint capture (n : nat) (caps : captures) : option jsstring :=
  match caps with
  | [] => None
  | (i, t) :: caps' => if Nat.eqb i n then Some t else capture n caps'
  end.

(** [v[n]] for a group that took part in the match. *)
Definition group (n : nat) (v : Match) : jsstring :=
  default [] (capture n (groups v)).

(** An attempt to match at the start of [s]. *)
Definition exec_at (r : regex) (s : jsstring) : option (jsstring * captures) :=
  run r s [] (fun s' caps => Some (s', caps)).

(** [String.prototype.matchAll] with a global pattern.  [skip] counts the
    code units still covered by the previous match: the next attempt starts
    at its end ([lastIndex]), one code unit further after an empty match. *)
Fixpoint scan (r : regex) (skip : nat) (s : jsstring) : list Match :=
  match s with
  | [] =>
      match skip, exec_at r [] with
      | O, Some (_, caps) => [ {| matched := []; groups := caps |} ]
      | _, _ => []
      end
  | _ :: s' =>
      match skip with
      | S n => scan r n s'
      | O =>
          match exec_at r s with
          | Some (rest, caps) =>
              let len := length s - length rest in
              {| matched := take len s; groups := caps |} :: scan r (len - 1) s'
          | None => scan r 0 s'
          end
      end
  end.

Definition matchAll (r : regex) (s : jsstring) : list Match := scan r 0 s.

End RegExp.

Import RegExp.

(** ** The version parser ([PromptView.extractPromptData]) *)

(** [/### Version\s+(\d+(?:\.\d+)?)\n([\s\S]*?)(?=### Version|\z)/g].
    The pattern has no [u] flag, so [\z] is an identity escape: it matches
    the letter z. *)
Definition versionPattern : regex :=
  Seq (Chars (js "### Version"))
 (Seq (Plus is_space)
 (Seq (Group 1 (Seq (Plus is_digit)
                    (Opt (Seq (Chars (js ".")) (Plus is_digit)))))
 (Seq (Chars (js "\n"))
 (Seq (Group 2 (LazyStar any_char))
      (Ahead (Alt (Chars (js "### Version")) (Chars (js "z")))))))).

Record ExtractResult := {
  r_version : jsstring;
  r_details : jsstring;
  r_fullContent : jsstring
}.

(** The template literal [`### Version ${v[1]}\n${v[2]}`]. *)
Definition section_text (v : Match) : jsstring :=
  js "### Version " ++ group 1 v ++ js "\n" ++ group 2 v.

Definition extractPromptData (content : jsstring) : ExtractResult :=
  let versionMatches := matchAll versionPattern content in
  match last versionMatches with
  | None =>
      {| r_version := js "0.0"; r_details := trim content; r_fullContent := content |}
  | Some lastVersion =>
      {| r_version := group 1 lastVersion;
         r_details := trim (group 2 lastVersion);
         r_fullContent := join (js "\n\n") (map section_text versionMatches) |}
  end.

(** ** Numbers

    A JavaScript number is an IEEE-754 binary64 value. *)
Module Number.

Definition prec : Z := 53.
Definition emax : Z := 1024.

Definition number := spec_float.

Definition NaN : number := S754_nan.

(** [x - y]. *)
Definition sub (x y : number) : number := SFsub prec emax x y.

(** [x > 0], false of [NaN] and of the zeros. *)
Definition gtb0 (x : number) : bool := SFltb (S754_zero false) x.

Definition isNaN (x : number) : bool :=
  match x with S754_nan => true | _ => false end.

(** The number nearest to [n * 10^e], ties to even, with the sign [neg]:
    one correctly rounded division of the two integers [n * 10^max(e,0)]
    and [10^max(-e,0)]. *)
Definition of_decimal (neg : bool) (n : N) (e : Z) : number :=
  match n with
  | N0 => S754_zero neg
  | Npos p =>
      SFdiv prec emax
        (S754_finite neg (p * Z.to_pos (10 ^ Z.max e 0)) 0)
        (S754_finite false (Z.to_pos (10 ^ Z.max (- e) 0)) 0)
  end.

(** The numeric value of a number: a finite one in units of [2^-1074], the
    least positive number (the exponent of a binary64 number is at least
    [emin = -1074]), or one of the two infinities; [None] for [NaN]. *)
Inductive value := NegInf | Fin (z : Z) | PosInf.

Definition value_of (x : number) : option value :=
  match x with
  | S754_nan => None
  | S754_infinity s => Some (if s then NegInf else PosInf)
  | S754_zero _ => Some (Fin 0)
  | S754_finite s m e => Some (Fin (cond_Zopp s (Z.pos m * 2 ^ (e - emin prec emax))))
  end.

(** [v <= w] on values. *)
Definition value_le (v w : value) : Prop :=
  match v, w with
  | NegInf, _ => True
  | _, PosInf => True
  | Fin a, Fin b => (a <= b)%Z
  | _, _ => False
  end.

(** [x >= y] on numbers, false when one of them is [NaN]. *)
Definition ge (x y : number) : Prop :=
  match value_of x, value_of y with
  | Some v, Some w => value_le w v
  | _, _ => False
  end.

End Number.

Import Number.

(** ** [parseFloat] *)

Fixpoint span_digits (s : jsstring) : jsstring * jsstring :=
  match s with
  | c :: s' =>
      if is_digit c then let (ds, rest) := span_digits s' in (c :: ds, rest)
      else ([], s)
  | [] => ([], [])
  end.

(** The value of a run of decimal digits. *)
Definition digits_value (ds : jsstring) : N :=
  fold_left (fun acc d => (10 * acc + (d - 48))%N) ds 0%N.

(** [ExponentPart]: [e] or [E], an optional sign and at least one digit;
    the exponent and the rest of the input, or nothing consumed. *)
Definition exponent_part (s : jsstring) : Z * jsstring :=
  match s with
  | c :: s' =>
      if ((c =? 101) || (c =? 69))%N then
        let (neg, s'') :=
          match s' with
          | d :: t => if (d =? 43)%N then (false, t)
                      else if (d =? 45)%N then (true, t) else (false, s')
          | [] => (false, s')
          end in
        match span_digits s'' with
        | ([], _) => (0%Z, s)
        | (ds, rest) => (cond_Zopp neg (Z.of_N (digits_value ds)), rest)
        end
      else (0%Z, s)
  | [] => (0%Z, s)
  end.

(** [StrUnsignedDecimalLiteral]: the number the longest prefix of [s] of
    that syntax denotes, [NaN] when no prefix has it. *)
Definition unsigned_decimal (neg : bool) (s : jsstring) : number :=
  match strip_prefix (js "Infinity") s with
  | Some _ => S754_infinity neg
  | None =>
      let (int, s1) := span_digits s in
      let (frac, s2) :=
        match s1 with
        | c :: t => if (c =? 46)%N then
                      let (fs, r) := span_digits t in
                      match int, fs with
                      | [], [] => ([], s1)
                      | _, _ => (fs, r)
                      end
                    else ([], s1)
        | [] => ([], s1)
        end in
      match int, frac with
      | [], [] => NaN
      | _, _ =>
          let (e, _) := exponent_part s2 in
          of_decimal neg (digits_value (int ++ frac)) (e - Z.of_nat (length frac))
      end
  end.

(** [parseFloat(string)]: leading white space is skipped, then the longest
    prefix that is a [StrDecimalLiteral] is converted. *)
Definition parseFloat (s : jsstring) : number :=
  match trimStart s with
  | c :: s' =>
      if (c =? 43)%N then unsigned_decimal false s'
      else if (c =? 45)%N then unsigned_decimal true s'
      else unsigned_decimal false (c :: s')
  | [] => NaN
  end.

(** ** [Array.prototype.sort]

    The sort is stable, and a comparator's result [v] orders [a] before [b]
    when [v < 0], after it when [v > 0], and leaves them as they stand
    otherwise ([NaN] counts as [0]).  With a consistent comparator the
    stable sorted arrangement is unique; insertion from the left computes
    it: an element goes before the first one that the comparator orders
    after it. *)
Section Sort.
Context {A : Type} (comparefn : A -> A -> number).

Fixpoint insert_sorted (x : A) (l : list A) : list A :=
  match l with
  | [] => [x]
  | y :: l' => if gtb0 (comparefn y x) then x :: l else y :: insert_sorted x l'
  end.

Definition sort (l : list A) : list A :=
  fold_left (fun acc x => insert_sorted x acc) l [].
End Sort.

(** ** The host application *)

Record TFolder := { folder_path : jsstring }.

Record TFile := {
  file_path : jsstring;
  basename : jsstring;
  extension : jsstring;
  parent : option TFolder          (* [file.parent], which may be null *)
}.

Inductive TAbstractFile :=
| AFile (f : TFile)
| AFolder (d : TFolder).

(** What the plugin asks of the host: the vault, [normalizePath] and the
    clipboard.  An asynchronous call answers [None] when its promise is
    rejected. *)
Class Host (H : Type) := {
  getAbstractFileByPath : H -> jsstring -> option TAbstractFile;
  getFiles : H -> list TFile;
  read : H -> TFile -> option jsstring;
  create : H -> jsstring -> jsstring -> option (TFile * H);
  createFolder : H -> jsstring -> option H;
  normalizePath : H -> jsstring -> jsstring;
  clipboard_writeText : H -> jsstring -> option H
}.

(** ** The view and the plugin *)

Record PromptData := {
  name : jsstring;
  version : jsstring;
  details : jsstring;
  fullContent : jsstring;
  file : TFile
}.

Inductive ViewType := ViewBoard | ViewList.

(** What the program does to the user and the host, in order. *)
Inductive effect :=
| Notice (message : jsstring)
| ConsoleError (message : jsstring)
| ClipboardWrite (text : jsstring)
| VaultCreateFolder (path : jsstring)
| VaultCreate (path content : jsstring)
| OpenFile (f : TFile).

(** A rendered table row ([.prompt-list-table tbody tr]) or card
    ([.prompt-card]). *)
Inductive ItemKind := Row | Card.

Record Item := {
  kind : ItemKind;
  textContent : jsstring;
  display : jsstring;               (* [style.display] *)
  item_prompt : PromptData          (* the record its handlers close over *)
}.

(** How a method ends: it returns, or an exception (a rejected promise)
    leaves it. *)
Inductive outcome (A : Type) := Returned (a : A) | Thrown.
Arguments Returned {A} a.
Arguments Thrown {A}.

Section View.
Context {H : Type} `{Host H}.
(** [String.prototype.toLowerCase]. *)
Variable toLowerCase : jsstring -> jsstring.

Record State := {
  host : H;
  promptFolderPath : jsstring;    (* [plugin.settings.promptFolderPath] *)
  prompts : list PromptData;
  viewType : ViewType;
  items : list Item;              (* the rows or cards under [.prompt-content] *)
  modalOpen : bool;
  effects : list effect
}.

Definition set_host (h : H) (w : State) : State :=
  {| host := h; promptFolderPath := promptFolderPath w; prompts := prompts w;
     viewType := viewType w; items := items w; modalOpen := modalOpen w;
     effects := effects w |}.

Definition set_prompts (ps : list PromptData) (w : State) : State :=
  {| host := host w; promptFolderPath := promptFolderPath w; prompts := ps;
     viewType := viewType w; items := items w; modalOpen := modalOpen w;
     effects := effects w |}.

Definition set_viewType (v : ViewType) (w : State) : State :=
  {| host := host w; promptFolderPath := promptFolderPath w; prompts := prompts w;
     viewType := v; items := items w; modalOpen := modalOpen w;
     effects := effects w |}.

Definition set_items (l : list Item) (w : State) : State :=
  {| host := host w; promptFolderPath := promptFolderPath w; prompts := prompts w;
     viewType := viewType w; items := l; modalOpen := modalOpen w;
     effects := effects w |}.

Definition set_modalOpen (b : bool) (w : State) : State :=
  {| host := host w; promptFolderPath := promptFolderPath w; prompts := prompts w;
     viewType := viewType w; items := items w; modalOpen := b;
     effects := effects w |}.

Definition emit (e : effect) (w : State) : State :=
  {| host := host w; promptFolderPath := promptFolderPath w; prompts := prompts w;
     viewType := viewType w; items := items w; modalOpen := modalOpen w;
     effects := effects w ++ [e] |}.

Definition M (A : Type) : Type := State -> outcome A * State.

Definition ret {A} (a : A) : M A := fun w => (Returned a, w).

Definition bind {A B} (m : M A) (f : A -> M B) : M B :=
  fun w => match m w with
           | (Returned a, w') => f a w'
           | (Thrown, w') => (Thrown, w')
           end.

Definition modify (f : State -> State) : M unit := fun w => (Returned tt, f w).

#[local] Instance M_ret : MRet M := @ret.
#[local] Instance M_bind : MBind M := fun A B f m => bind m f.

(** The comparator of [refresh]:
    [parseFloat(b.version) - parseFloat(a.version)]. *)
Definition compareVersions (a b : PromptData) : number :=
  let versionA := parseFloat (version a) in
  let versionB := parseFloat (version b) in
  sub versionB versionA.

(** The callback mapped over the files: reads one file and builds its
    record. *)
Definition loadPrompt (h : H) (f : TFile) : option PromptData :=
  match read h f with
  | Some content =>
      let r := extractPromptData content in
      Some {| name := basename f; version := r_version r; details := r_details r;
              fullContent := r_fullContent r; file := f |}
  | None => None
  end.

(** [Promise.all]: every result in order, or a rejection. *)
Fixpoint all {X Y} (f : X -> option Y) (l : list X) : option (list Y) :=
  match l with
  | [] => Some []
  | x :: l' =>
      match f x, all f l' with
      | Some y, Some ys => Some (y :: ys)
      | _, _ => None
      end
  end.

Definition in_folder (folder : TFolder) (f : TFile) : bool :=
  match parent f with
  | Some p => bool_decide (folder_path p = folder_path folder)
  | None => false
  end.

Definition is_md (f : TFile) : bool := bool_decide (extension f = js "md").

Definition refresh : M unit := fun w =>
  let promptFolderPath := promptFolderPath w in
  match promptFolderPath with
  | [] =>
      (Returned tt,
       emit (Notice (js "Please select a prompts folder in the plugin settings.")) w)
  | _ :: _ =>
      match getAbstractFileByPath (host w) promptFolderPath with
      | Some (AFolder folder) =>
          let files := List.filter (in_folder folder) (getFiles (host w)) in
          let mdFiles := List.filter is_md files in
          match all (loadPrompt (host w)) mdFiles with
          | Some loaded => (Returned tt, set_prompts (sort compareVersions loaded) w)
          | None => (Thrown, w)
          end
      | _ => (Returned tt, emit (Notice (js "Invalid prompts folder selected.")) w)
      end
  end.

(** The text of a row ([textContent]): the name and version cells and the
    two buttons. *)
Definition rowText (prompt : PromptData) : jsstring :=
  name prompt ++ version prompt ++ js "Edit" ++ js "Copy".

(** The text of a card: the name, the version badge, the details and the
    button. *)
Definition cardText (prompt : PromptData) : jsstring :=
  name prompt ++ (js "v" ++ version prompt) ++ details prompt ++ js "Copy".

Definition renderList (ps : list PromptData) : list Item :=
  map (fun prompt =>
         {| kind := Row; textContent := rowText prompt; display := [];
            item_prompt := prompt |}) ps.

Definition renderBoard (ps : list PromptData) : list Item :=
  map (fun prompt =>
         {| kind := Card; textContent := cardText prompt; display := [];
            item_prompt := prompt |}) ps.

Definition render : M unit :=
  modify (fun w =>
    set_items (match viewType w with
               | ViewList => renderList (prompts w)
               | ViewBoard => renderBoard (prompts w)
               end) w).

(** [querySelectorAll] of [filterPrompts]: the cards in board view, the
    table rows otherwise. *)
Definition selected (v : ViewType) (i : Item) : bool :=
  match v, kind i with
  | ViewBoard, Card => true
  | ViewList, Row => true
  | _, _ => false
  end.

Definition filterItem (searchTerm : jsstring) (item : Item) : Item :=
  let text := toLowerCase (textContent item) in
  {| kind := kind item; textContent := textContent item;
     display := if includes text searchTerm then [] else js "none";
     item_prompt := item_prompt item |}.

Definition filterPrompts (searchTerm : jsstring) : M unit :=
  modify (fun w =>
    set_items (map (fun item => if selected (viewType w) item
                                then filterItem searchTerm item else item)
                   (items w)) w).

(** The [input] listener of the search box. *)
Definition onSearchInput (value : jsstring) : M unit :=
  filterPrompts (toLowerCase value).

(** The [click] handler of the view toggle. *)
Definition onToggleView : M unit :=
  modify (fun w => set_viewType (match viewType w with
                                 | ViewBoard => ViewList
                                 | ViewList => ViewBoard
                                 end) w) ;;
  render.

(** The [click] handler of the refresh button, and the end of [onOpen]. *)
Definition refreshAndRender : M unit := refresh ;; render.

(** The [click] handler of a Copy button, the same in a row and in a
    card. *)
Definition copyClick (prompt : PromptData) : M unit := fun w =>
  let w := emit (ClipboardWrite (details prompt)) w in
  match clipboard_writeText (host w) (details prompt) with
  | Some h' =>
      (Returned tt,
       emit (Notice (js "Copied prompt version " ++ version prompt ++ js " content"))
            (set_host h' w))
  | None =>
      (Returned tt,
       emit (Notice (js "Failed to copy content"))
            (emit (ConsoleError (js "Failed to copy: ")) w))
  end.

Definition openPrompt (f : TFile) : M unit := modify (emit (OpenFile f)).

(** The callback [showNewPromptModal] hands to the dialog. *)
Definition newPromptCallback (name : jsstring) : M unit := fun w =>
  match name with
  | [] => (Returned tt, w)
  | _ :: _ =>
      let promptFolderPath := promptFolderPath w in
      match promptFolderPath with
      | [] =>
          (Returned tt,
           emit (Notice (js "Please select a prompts folder in the plugin settings.")) w)
      | _ :: _ =>
          match getAbstractFileByPath (host w) promptFolderPath with
          | Some (AFolder folder) =>
              let content := js "### Version 1.0\n\nNew prompt content" in
              let w := emit (VaultCreate (name ++ js ".md") content) w in
              match create (host w) (name ++ js ".md") content with
              | Some (file, h') => refreshAndRender (set_host h' w)
              | None => (Thrown, w)
              end
          | _ => (Returned tt, emit (Notice (js "Invalid prompts folder selected.")) w)
          end
      end
  end.

Definition showNewPromptModal : M unit := modify (set_modalOpen true).

(** The [click] handler of the dialog's Create button: the callback is
    not awaited, so a rejection inside it does not reach the handler. *)
Definition submitClick (value : jsstring) : M unit := fun w =>
  let (_, w') := newPromptCallback value w in
  (Returned tt, set_modalOpen false w').

Definition cancelClick : M unit := modify (set_modalOpen false).

(** [PromptManagerPlugin.createPrompt] of main.ts. *)
Definition createPrompt (name content : jsstring) : M unit := fun w =>
  let folderPath := normalizePath (host w) (promptFolderPath w) in
  let folder := getAbstractFileByPath (host w) folderPath in
  let made :=
    match folder with
    | None =>
        match createFolder (host w) folderPath with
        | Some h' => (Returned tt, set_host h' (emit (VaultCreateFolder folderPath) w))
        | None => (Thrown, emit (VaultCreateFolder folderPath) w)
        end
    | Some _ => (Returned tt, w)
    end in
  match made with
  | (Returned _, w) =>
      let filePath := normalizePath (host w) (folderPath ++ js "/" ++ name ++ js ".md") in
      let w := emit (VaultCreate filePath content) w in
      match create (host w) filePath content with
      | Some (_, h') => (Returned tt, set_host h' w)
      | None => (Thrown, w)
      end
  | (Thrown, w) => (Thrown, w)
  end.

(** [PromptManagerPlugin.getPrompts] of main.ts. *)
Definition getPrompts (w : State) : list TFile :=
  let folderPath := normalizePath (host w) (promptFolderPath w) in
  match getAbstractFileByPath (host w) folderPath with
  | None => []
  | Some folder =>
      let path := match folder with
                  | AFile f => file_path f
                  | AFolder d => folder_path d
                  end in
      List.filter (fun f => match parent f with
                            | Some p => bool_decide (folder_path p = path)
                                        && bool_decide (extension f = js "md")
                            | None => false
                            end) (getFiles (host w))
  end.
End View.

(** ** A vault kept in lists

    An instance of the host interface on which the operations can be run:
    folders by path, files with their text in the order [getFiles] lists
    them, and a clipboard that accepts or rejects every write. *)
Module ListVault.

Record vault := {
  folders : list jsstring;
  files : list (TFile * jsstring);
  clipboard : option jsstring;
  clipboard_allowed : bool
}.

(** [s] cut at the last occurrence of [c]. *)
Fixpoint split_last (c : N) (s : jsstring) : option (jsstring * jsstring) :=
  match s with
  | [] => None
  | x :: s' =>
      match split_last c s' with
      | Some (a, b) => Some (x :: a, b)
      | None => if (x =? c)%N then Some ([], s') else None
      end
  end.

(** The file a path names: its folder (the root folder has the path [/]),
    and the base name and extension of its last segment. *)
Definition file_at (path : jsstring) : TFile :=
  let (dir, last) := match split_last 47 path with
                     | Some (d, l) => (d, l)
                     | None => (js "/", path)
                     end in
  let (base, ext) := match split_last 46 last with
                     | Some (b, e) => (b, e)
                     | None => (last, [])
                     end in
  {| file_path := path; basename := base; extension := ext;
     parent := Some {| folder_path := dir |} |}.

Definition lookup_path (v : vault) (path : jsstring) : option TAbstractFile :=
  match List.find (fun fc => bool_decide (file_path (fst fc) = path)) (files v) with
  | Some (f, _) => Some (AFile f)
  | None =>
      if bool_decide (path ∈ folders v) then Some (AFolder {| folder_path := path |})
      else None
  end.

Definition read_file (v : vault) (f : TFile) : option jsstring :=
  snd <$> List.find (fun fc => bool_decide (file_path (fst fc) = file_path f)) (files v).

Definition create_file (v : vault) (path content : jsstring) : option (TFile * vault) :=
  match lookup_path v path with
  | Some _ => None
  | None =>
      let f := file_at path in
      Some (f, {| folders := folders v; files := files v ++ [(f, content)];
                  clipboard := clipboard v; clipboard_allowed := clipboard_allowed v |})
  end.

Definition create_folder (v : vault) (path : jsstring) : option vault :=
  match lookup_path v path with
  | Some _ => None
  | None =>
      Some {| folders := folders v ++ [path]; files := files v;
              clipboard := clipboard v; clipboard_allowed := clipboard_allowed v |}
  end.

Definition write_clipboard (v : vault) (text : jsstring) : option vault :=
  if clipboard_allowed v then
    Some {| folders := folders v; files := files v;
            clipboard := Some text; clipboard_allowed := true |}
  else None.

#[export] Instance list_host : Host vault := {
  getAbstractFileByPath := lookup_path;
  getFiles v := map fst (files v);
  read := read_file;
  create := create_file;
  createFolder := create_folder;
  normalizePath _ p := p;
  clipboard_writeText := write_clipboard
}.

(** [toLowerCase] on text of ASCII code units. *)
Definition asciiLower (s : jsstring) : jsstring :=
  map (fun c => if ((65 <=? c) && (c <=? 90))%N then (c + 32)%N else c) s.

(** A view that has just been constructed over a vault. *)
Definition start (v : vault) (folder : jsstring) : State :=
  {| host := v; promptFolderPath := folder; prompts := [];
     viewType := ViewList; items := []; modalOpen := false; effects := [] |}.

End ListVault.

(** * The vocabulary of the properties *)

(** [t] occurs in [s]. *)
Definition occurs_in (t s : jsstring) : Prop :=
  exists pre post, s = pre ++ t ++ post.

(** [matches r s rest c c']: [r] can match [s] when [rest] follows it,
    turning the captures [c] into [c']. *)
Inductive matches : regex -> jsstring -> jsstring -> captures -> captures -> Prop :=
| m_chars l rest c : matches (Chars l) l rest c c
| m_class (p : N -> bool) x rest c : p x = true -> matches (Class p) [x] rest c c
| m_seq r1 r2 s1 s2 rest c0 c1 c2 :
    matches r1 s1 (s2 ++ rest) c0 c1 -> matches r2 s2 rest c1 c2 ->
    matches (Seq r1 r2) (s1 ++ s2) rest c0 c2
| m_alt_l r1 r2 s rest c0 c1 : matches r1 s rest c0 c1 -> matches (Alt r1 r2) s rest c0 c1
| m_alt_r r1 r2 s rest c0 c1 : matches r2 s rest c0 c1 -> matches (Alt r1 r2) s rest c0 c1
| m_opt_some r s rest c0 c1 : matches r s rest c0 c1 -> matches (Opt r) s rest c0 c1
| m_opt_none r rest c : matches (Opt r) [] rest c c
| m_plus (p : N -> bool) x s rest c :
    p x = true -> Forall (fun y => p y = true) s -> matches (Plus p) (x :: s) rest c c
| m_lazy (p : N -> bool) s rest c :
    Forall (fun y => p y = true) s -> matches (LazyStar p) s rest c c
| m_group n r s rest c0 c1 :
    matches r s rest c0 c1 -> matches (Group n r) s rest c0 ((n, s) :: c1)
| m_ahead r s rest c0 c1 :
    matches r s rest c0 c1 -> matches (Ahead r) [] (s ++ rest) c0 c1.

(** The texts [\d+(?:\.\d+)?] matches: digits, then possibly a dot and
    digits. *)
Definition digits (s : jsstring) : Prop :=
  s <> [] /\ Forall (fun c => is_digit c = true) s.

Definition version_literal (v : jsstring) : Prop :=
  digits v \/ exists int frac, v = int ++ js "." ++ frac /\ digits int /\ digits frac.

(** A number as rounding produces it: never [NaN], of the sign asked
    for, and no finer than the least positive number. *)
Definition rounded (prec emax : Z) (sx : bool) (x : spec_float) : Prop :=
  match x with
  | S754_zero s | S754_infinity s => s = sx
  | S754_finite s _ e => s = sx /\ (emin prec emax <= e)%Z
  | S754_nan => False
  end.

Definition nonzero (x : spec_float) : Prop :=
  match x with S754_zero _ => False | _ => True end.

(** A number that is not [NaN] and not negative. *)
Definition version_number (x : number) : Prop := rounded prec emax false x.

(** A record whose version parses to such a number. *)
Definition valid_version (p : PromptData) : Prop :=
  version_number (parseFloat (version p)).

(** [a] does not come after [b] in the descending order of versions. *)
Definition version_ge (a b : PromptData) : Prop :=
  ge (parseFloat (version a)) (parseFloat (version b)).

(** The example document of the specification. *)
Definition example_document : jsstring :=
  js "### Version 1.0\nFoo\n### Version 2.0\nBar".

Import ListVault.

(** A vault with the folder [prompts] and three prompts in it, a text file
    beside them and a prompt elsewhere.  A versioned text ends in a further
    heading, which closes the section before it. *)
Definition sample_vault : vault :=
  {| folders := [js "/"; js "prompts"; js "other"];
     files := [ (file_at (js "prompts/a.md"), js "### Version 1.5\nAlpha\n### Version 3\n");
                (file_at (js "prompts/b.md"), js "### Version 10\nBeta\n### Version 11\n");
                (file_at (js "prompts/notes.txt"), js "### Version 99\nText\n### Version 100\n");
                (file_at (js "other/c.md"), js "### Version 7\nGamma\n### Version 8\n");
                (file_at (js "prompts/d.md"), js "plain text") ];
     clipboard := None;
     clipboard_allowed := true |}.

(** The pieces [ms] lie in [s] one after the other, without overlap. *)
Inductive tiles : list jsstring -> jsstring -> Prop :=
| tiles_nil s : tiles [] s
| tiles_cons gap m ms s : tiles ms s -> tiles (m :: ms) (gap ++ m ++ s).

(** A text with no white space at its start or at its end. *)
Definition trimmed (s : jsstring) : Prop :=
  (forall c s', s = c :: s' -> is_space c = false) /\
  (forall s' c, s = s' ++ [c] -> is_space c = false).



(** The number of places of [s] at which [t] starts. *)
Fixpoint occurrences (t s : jsstring) : nat :=
  match strip_prefix t s with Some _ => 1 | None => 0 end +
  match s with
  | [] => 0
  | _ :: s' => occurrences t s'
  end.

(** The rows or cards [render] makes of a collection. *)
Definition rendered (v : ViewType) (ps : list PromptData) : list Item :=
  match v with
  | ViewList => renderList ps
  | ViewBoard => renderBoard ps
  end.

(** An item as it was rendered, whatever the search has made of its
    display. *)
Definition as_rendered (item : Item) : Item :=
  {| kind := kind item; textContent := textContent item; display := [];
     item_prompt := item_prompt item |}.

Section Events.
Context {H : Type} {host_ops : Host H}.
Variable toLowerCase : jsstring -> jsstring.

(** The items on screen are those of the collection: one row or card for
    each record, in its order, of the kind of the view and with its text. *)
Definition mirrors (w : @State H) : Prop :=
  map as_rendered (items w) = rendered (viewType w) (prompts w).

(** What the user can do to an open view, and the handler of each. *)
Inductive user_event :=
| Search (value : jsstring)
| ToggleView
| Refresh
| Copy (prompt : PromptData)
| Edit (f : TFile)
| NewPrompt
| Submit (value : jsstring)
| Cancel.

Definition handle (e : user_event) : @M H unit :=
  match e with
  | Search value => onSearchInput toLowerCase value
  | ToggleView => onToggleView
  | Refresh => refreshAndRender
  | Copy prompt => copyClick prompt
  | Edit f => openPrompt f
  | NewPrompt => showNewPromptModal
  | Submit value => submitClick value
  | Cancel => cancelClick
  end.

Definition after (events : list user_event) (w : @State H) : @State H :=
  fold_left (fun w e => snd (handle e w)) events w.
End Events.


(** * Properties *)

(** ** Strings *)

Lemma strip_prefix_Some p s s' : strip_prefix p s = Some s' <-> s = p ++ s'.
Proof.
  revert s. induction p as [|a p IH]; intros [|b s]; simpl.
  - split; congruence.
  - split; congruence.
  - split; [discriminate | intros E; discriminate].
  - destruct (N.eqb_spec a b) as [->|Hne].
    + rewrite IH. split; congruence.
    + split; [discriminate | intros E; congruence].
Qed.

Lemma strip_prefix_head_ne a p b s : a <> b -> strip_prefix (a :: p) (b :: s) = None.
Proof. intros Hne. cbn [strip_prefix]. by destruct (N.eqb_spec a b). Qed.

Lemma strip_prefix_app p s : strip_prefix p (p ++ s) = Some s.
Proof. by apply strip_prefix_Some. Qed.

Lemma includes_spec s t : includes s t = true <-> occurs_in t s.
Proof.
  induction s as [|c s IH]; simpl.
  - destruct (strip_prefix t []) as [l|] eqn:E.
    + apply strip_prefix_Some in E. split; [|done].
      intros _. by exists [], l.
    + split; [done|]. intros (pre & post & E').
      destruct pre; [|done]. simpl in E'.
      rewrite E' in E. by rewrite strip_prefix_app in E.
  - destruct (strip_prefix t (c :: s)) as [l|] eqn:E.
    + apply strip_prefix_Some in E. split; [|done].
      intros _. by exists [], l.
    + rewrite IH. split.
      * intros (pre & post & ->). by exists (c :: pre), post.
      * intros (pre & post & E'). destruct pre as [|d pre].
        -- simpl in E'. rewrite E' in E. by rewrite strip_prefix_app in E.
        -- injection E' as -> ->. by exists pre, post.
Qed.

Lemma is_digit_not_space c : is_digit c = true -> is_space c = false.
Proof.
  unfold is_digit, is_space. intros Hd.
  apply andb_true_iff in Hd as [H1 H2].
  apply N.leb_le in H1. apply N.leb_le in H2.
  repeat (apply orb_false_iff; split);
    try (apply andb_false_iff);
    try (apply N.eqb_neq; lia);
    try (right; apply N.leb_gt; lia); try (left; apply N.leb_gt; lia).
Qed.

(** ** The matcher against the meaning of a pattern *)

Lemma star_greedy_sound p s caps k res :
  star_greedy p s caps k = Some res ->
  exists s1 s2, s = s1 ++ s2 /\ Forall (fun y => p y = true) s1 /\ k s2 caps = Some res.
Proof.
  revert res. induction s as [|c s IH]; simpl; intros res Hrun.
  - by exists [], [].
  - destruct (p c) eqn:Hc; [|by exists [], (c :: s)].
    destruct (star_greedy p s caps k) as [r|] eqn:Hs.
    + injection Hrun as ->. destruct (IH _ eq_refl) as (s1 & s2 & -> & Hall & Hk).
      exists (c :: s1), s2. by repeat split; [constructor|].
    + by exists [], (c :: s).
Qed.

Lemma star_lazy_sound p s caps k res :
  star_lazy p s caps k = Some res ->
  exists s1 s2, s = s1 ++ s2 /\ Forall (fun y => p y = true) s1 /\ k s2 caps = Some res.
Proof.
  revert res. induction s as [|c s IH]; simpl; intros res Hrun.
  - destruct (k [] caps) as [x|] eqn:Hk; [|done].
    injection Hrun as ->. by exists [], [].
  - destruct (k (c :: s) caps) as [x|] eqn:Hk.
    { injection Hrun as ->. by exists [], (c :: s). }
    destruct (p c) eqn:Hc; [|done].
    destruct (IH _ Hrun) as (s1 & s2 & -> & Hall & Hk').
    exists (c :: s1), s2. by repeat split; [constructor|].
Qed.

(** Whatever the matcher finds is a match of the pattern: the input splits
    into the text matched and the rest the continuation accepted. *)
Lemma run_sound r : forall s caps k res,
  run r s caps k = Some res ->
  exists s1 s2 caps', s = s1 ++ s2 /\ matches r s1 s2 caps caps' /\ k s2 caps' = Some res.
Proof.
  induction r as [l|p|r1 IH1 r2 IH2|r1 IH1 r2 IH2|r1 IH1|p|p|n r1 IH1|r1 IH1];
    simpl; intros s caps k res Hrun.
  - destruct (strip_prefix l s) as [s'|] eqn:E; [|done].
    apply strip_prefix_Some in E as ->. exists l, s', caps. by repeat split; [constructor|].
  - destruct s as [|c s]; [done|]. destruct (p c) eqn:Hc; [|done].
    exists [c], s, caps. by repeat split; [constructor|].
  - apply IH1 in Hrun as (s1 & s2 & c1 & -> & Hm1 & Hrun).
    apply IH2 in Hrun as (s2' & s3 & c2 & -> & Hm2 & Hk).
    exists (s1 ++ s2'), s3, c2. rewrite <- app_assoc. by repeat split; [econstructor|].
  - destruct (run r1 s caps k) as [x|] eqn:E.
    + injection Hrun as ->. apply IH1 in E as (s1 & s2 & c1 & -> & Hm & Hk).
      exists s1, s2, c1. by repeat split; [apply m_alt_l|].
    + apply IH2 in Hrun as (s1 & s2 & c1 & -> & Hm & Hk).
      exists s1, s2, c1. by repeat split; [apply m_alt_r|].
  - destruct (run r1 s caps k) as [x|] eqn:E.
    + injection Hrun as ->. apply IH1 in E as (s1 & s2 & c1 & -> & Hm & Hk).
      exists s1, s2, c1. by repeat split; [apply m_opt_some|].
    + exists [], s, caps. by repeat split; [apply m_opt_none|].
  - destruct s as [|c s]; [done|]. destruct (p c) eqn:Hc; [|done].
    apply star_greedy_sound in Hrun as (s1 & s2 & -> & Hall & Hk).
    exists (c :: s1), s2, caps. by repeat split; [constructor|].
  - apply star_lazy_sound in Hrun as (s1 & s2 & -> & Hall & Hk).
    exists s1, s2, caps. by repeat split; [constructor|].
  - apply IH1 in Hrun as (s1 & s2 & c1 & -> & Hm & Hk).
    exists s1, s2, ((n, s1) :: c1). repeat split; [by constructor|].
    rewrite <- Hk. do 3 f_equal.
    rewrite length_app, Nat.add_sub. by rewrite take_app_length.
  - destruct (run r1 s caps (fun s' caps' => Some (s', caps'))) as [[s' caps']|] eqn:E; [|done].
    apply IH1 in E as (s1 & s2 & c1 & -> & Hm & Hk). injection Hk as <- <-.
    exists [], (s1 ++ s2), c1. by repeat split; [constructor|].
Qed.

(** Every element [matchAll] yields comes from an attempt at some position
    of the text. *)
Lemma scan_elem r skip s v :
  v ∈ scan r skip s ->
  exists before here rest, s = before ++ here /\ exec_at r here = Some (rest, groups v).
Proof.
  revert skip. induction s as [|c s IH]; simpl; intros skip Hin.
  - destruct skip; [|by apply elem_of_nil in Hin].
    destruct (exec_at r []) as [[rest caps]|] eqn:E; [|by apply elem_of_nil in Hin].
    apply list_elem_of_singleton in Hin as ->. by exists [], [], rest.
  - destruct skip as [|n].
    + destruct (exec_at r (c :: s)) as [[rest caps]|] eqn:E.
      * apply elem_of_cons in Hin as [->|Hin]; [by exists [], (c :: s), rest|].
        apply IH in Hin as (before & here & rest' & -> & Hex).
        by exists (c :: before), here, rest'.
      * apply IH in Hin as (before & here & rest' & -> & Hex).
        by exists (c :: before), here, rest'.
    + apply IH in Hin as (before & here & rest' & -> & Hex).
      by exists (c :: before), here, rest'.
Qed.

(** What a successful attempt of [versionPattern] has matched. *)
Lemma versionPattern_match s rest caps :
  exec_at versionPattern s = Some (rest, caps) ->
  exists space v body,
    s = js "### Version" ++ space ++ v ++ js "\n" ++ body ++ rest /\
    space <> [] /\ Forall (fun c => is_space c = true) space /\
    version_literal v /\
    caps = [(2, body); (1, v)] /\
    (exists tail, rest = js "### Version" ++ tail \/ rest = js "z" ++ tail).
Proof.
  unfold exec_at. intros Hrun.
  apply run_sound in Hrun as (s1 & s2 & c & -> & Hm & Hk). injection Hk as -> ->.
  unfold versionPattern in Hm.
  repeat match goal with
         | Hm : matches (Seq _ _) _ _ _ _ |- _ => inversion Hm; clear Hm; subst
         | Hm : matches (Chars _) _ _ _ _ |- _ => inversion Hm; clear Hm; subst
         | Hm : matches (Group _ _) _ _ _ _ |- _ => inversion Hm; clear Hm; subst
         | Hm : matches (Plus _) _ _ _ _ |- _ => inversion Hm; clear Hm; subst
         | Hm : matches (LazyStar _) _ _ _ _ |- _ => inversion Hm; clear Hm; subst
         | Hm : matches (Opt _) _ _ _ _ |- _ => inversion Hm; clear Hm; subst
         | Hm : matches (Ahead _) _ _ _ _ |- _ => inversion Hm; clear Hm; subst
         | Hm : matches (Alt _ _) _ _ _ _ |- _ => inversion Hm; clear Hm; subst
         end.
  all: match goal with
       | |- context [(?x :: ?sp) ++ ((?d :: ?ds) ++ ?f) ++ _ ++ (?body ++ [])] =>
           exists (x :: sp), ((d :: ds) ++ f), body
       end.
  all: repeat split; try done; try (by constructor).
  all: try (by rewrite ?app_nil_r, <- ?app_assoc).
  all: try (by eexists; left).
  all: try (by eexists; right).
  - right. exists (x :: s), (x1 :: s1). by repeat split; try constructor.
  - right. exists (x :: s), (x1 :: s1). by repeat split; try constructor.
  - left. rewrite app_nil_r. by repeat split; try constructor.
  - left. rewrite app_nil_r. by repeat split; try constructor.
Qed.
(** ** Rounding and the sign of a difference *)

Section Rounding.
Variables prec emax : Z.
Hypothesis prec_pos : (0 < prec)%Z.

#[local] Abbreviation emin := (SpecFloat.emin prec emax).
#[local] Abbreviation fexp := (SpecFloat.fexp prec emax).

Lemma fexp_ge_emin e : (emin <= fexp e)%Z.
Proof. unfold SpecFloat.fexp. lia. Qed.

Lemma digits2_pos_lower m : (2 ^ (Z.pos (digits2_pos m) - 1) <= Z.pos m)%Z.
Proof.
  induction m as [m IH|m IH|]; simpl digits2_pos.
  - rewrite Pos2Z.inj_succ. replace (Z.succ (Z.pos (digits2_pos m)) - 1)%Z
      with (Z.succ (Z.pos (digits2_pos m) - 1))%Z by lia.
    rewrite Z.pow_succ_r by lia. lia.
  - rewrite Pos2Z.inj_succ. replace (Z.succ (Z.pos (digits2_pos m)) - 1)%Z
      with (Z.succ (Z.pos (digits2_pos m) - 1))%Z by lia.
    rewrite Z.pow_succ_r by lia. lia.
  - simpl. lia.
Qed.

Lemma shr_1_m mrs :
  (0 <= shr_m mrs)%Z -> shr_m (shr_1 mrs) = Z.div2 (shr_m mrs).
Proof. destruct mrs as [[|[m|m|]|m] r t]; simpl; intros; try done; lia. Qed.

Lemma iter_pos_shr_1 p : forall mrs,
  (0 <= shr_m mrs)%Z ->
  shr_m (SpecFloat.iter_pos shr_1 p mrs) = Z.shiftr (shr_m mrs) (Z.pos p).
Proof.
  induction p as [p IH|p IH|]; simpl; intros mrs Hm.
  - assert (0 <= shr_m (shr_1 mrs))%Z as H1.
    { rewrite shr_1_m by done. by apply Z.div2_nonneg. }
    assert (0 <= shr_m (SpecFloat.iter_pos shr_1 p (shr_1 mrs)))%Z as H2.
    { rewrite IH by done. by apply Z.shiftr_nonneg. }
    rewrite IH, IH, shr_1_m by done.
    rewrite Z.div2_spec, !Z.shiftr_shiftr by lia. f_equal. lia.
  - assert (0 <= shr_m (SpecFloat.iter_pos shr_1 p mrs))%Z as H2.
    { rewrite IH by done. by apply Z.shiftr_nonneg. }
    rewrite IH, IH by done. rewrite Z.shiftr_shiftr by lia. f_equal. lia.
  - rewrite shr_1_m by done. apply Z.div2_spec.
Qed.

Lemma shr_record_of_loc_m m l : shr_m (shr_record_of_loc m l) = m.
Proof. by destruct l as [|[]]. Qed.

Lemma shr_fexp_exp m e l : (emin <= snd (shr_fexp prec emax m e l))%Z.
Proof.
  unfold shr_fexp, shr. pose proof (fexp_ge_emin (Zdigits2 m + e)).
  destruct (fexp (Zdigits2 m + e) - e)%Z eqn:E; simpl; lia.
Qed.

Lemma shr_fexp_nonneg m e l :
  (0 <= m)%Z -> (0 <= shr_m (fst (shr_fexp prec emax m e l)))%Z.
Proof.
  intros Hm. unfold shr_fexp, shr.
  destruct (fexp (Zdigits2 m + e) - e)%Z eqn:E; simpl;
    rewrite ?iter_pos_shr_1, shr_record_of_loc_m; rewrite ?shr_record_of_loc_m;
    try done.
  by apply Z.shiftr_nonneg.
Qed.

Lemma shr_fexp_pos m e l :
  (0 < m)%Z -> (emin <= e)%Z -> (0 < shr_m (fst (shr_fexp prec emax m e l)))%Z.
Proof.
  intros Hm He. unfold shr_fexp, shr.
  destruct (fexp (Zdigits2 m + e) - e)%Z as [|n|n] eqn:E; simpl;
    rewrite ?shr_record_of_loc_m; try done.
  rewrite iter_pos_shr_1, shr_record_of_loc_m by (rewrite shr_record_of_loc_m; lia).
  destruct m as [|m|m]; try lia. simpl in E.
  assert (Z.pos n = Z.pos (digits2_pos m) - prec)%Z as Hn.
  { unfold SpecFloat.fexp in E. lia. }
  rewrite Z.shiftr_div_pow2 by lia.
  apply Z.div_str_pos. split; [by apply Z.pow_pos_nonneg|].
  etrans; [|apply digits2_pos_lower].
  apply Z.pow_le_mono_r; lia.
Qed.

Lemma round_nearest_even_ge m l : (m <= round_nearest_even m l)%Z.
Proof. destruct l as [|[]]; simpl; try lia. destruct (Z.even m); lia. Qed.

Lemma binary_round_aux_rounded sx mx ex lx :
  (0 <= mx)%Z -> rounded prec emax sx (binary_round_aux prec emax sx mx ex lx).
Proof.
  intros Hm. unfold binary_round_aux.
  pose proof (shr_fexp_nonneg mx ex lx Hm) as H1.
  destruct (shr_fexp prec emax mx ex lx) as [mrs' e'] eqn:E1. simpl in H1.
  set (m2 := round_nearest_even (shr_m mrs') (loc_of_shr_record mrs')).
  assert (0 <= m2)%Z as H2.
  { pose proof (round_nearest_even_ge (shr_m mrs') (loc_of_shr_record mrs')). lia. }
  pose proof (shr_fexp_nonneg m2 e' loc_Exact H2) as H3.
  pose proof (shr_fexp_exp m2 e' loc_Exact) as H4.
  destruct (shr_fexp prec emax m2 e' loc_Exact) as [mrs'' e''] eqn:E2.
  simpl in H3, H4.
  destruct (shr_m mrs'') as [|m|m]; simpl; try done.
  by destruct (e'' <=? emax - prec)%Z.
Qed.

Lemma binary_round_aux_nonzero sx mx ex lx :
  (0 < mx)%Z -> (emin <= ex)%Z -> nonzero (binary_round_aux prec emax sx mx ex lx).
Proof.
  intros Hm He. unfold binary_round_aux.
  pose proof (shr_fexp_pos mx ex lx Hm He) as H1.
  pose proof (shr_fexp_exp mx ex lx) as H1'.
  destruct (shr_fexp prec emax mx ex lx) as [mrs' e'] eqn:E1. simpl in H1, H1'.
  set (m2 := round_nearest_even (shr_m mrs') (loc_of_shr_record mrs')).
  assert (0 < m2)%Z as H2.
  { pose proof (round_nearest_even_ge (shr_m mrs') (loc_of_shr_record mrs')). lia. }
  pose proof (shr_fexp_pos m2 e' loc_Exact H2 H1') as H3.
  destruct (shr_fexp prec emax m2 e' loc_Exact) as [mrs'' e''] eqn:E2.
  simpl in H3.
  destruct (shr_m mrs'') as [|m|m]; simpl; try done.
  by destruct (e'' <=? emax - prec)%Z.
Qed.

Lemma shl_align_value mx ex ez :
  (ez <= ex)%Z ->
  Z.pos (fst (shl_align mx ex ez)) = (Z.pos mx * 2 ^ (ex - ez))%Z.
Proof.
  intros Hle. unfold shl_align.
  destruct (ez - ex)%Z as [|d|d] eqn:E; simpl; try lia.
  - replace (ex - ez)%Z with 0%Z by lia. simpl. lia.
  - replace (ex - ez)%Z with (Z.pos d) by lia.
    clear E Hle. induction d as [|d IH] using Pos.peano_ind.
    + simpl. lia.
    + rewrite Pos.iter_succ, Pos2Z.inj_succ, Z.pow_succ_r by lia.
      rewrite Pos2Z.inj_xO, IH. lia.
Qed.
Lemma binary_round_rounded sx mx ex :
  (emin <= ex)%Z ->
  rounded prec emax sx (binary_round prec emax sx mx ex) /\
  nonzero (binary_round prec emax sx mx ex).
Proof.
  intros He. unfold binary_round.
  destruct (shl_align mx ex (fexp (Z.pos (digits2_pos mx) + ex))) as [mz ez] eqn:E.
  assert (emin <= ez)%Z as Hez.
  { unfold shl_align in E. pose proof (fexp_ge_emin (Z.pos (digits2_pos mx) + ex)).
    destruct (fexp (Z.pos (digits2_pos mx) + ex) - ex)%Z; injection E as <- <-; lia. }
  split; [by apply binary_round_aux_rounded | by apply binary_round_aux_nonzero].
Qed.

Lemma SFdiv_rounded sx mx ex my ey :
  rounded prec emax sx (SFdiv prec emax (S754_finite sx mx ex) (S754_finite false my ey)).
Proof.
  unfold SFdiv, SFdiv_core_binary.
  set (e' := Z.min _ _). set (m' := match (ex - ey - e')%Z with
                                     | Z0 => Z.pos mx | Z.pos _ => _ | Z.neg _ => _ end).
  assert (0 <= m')%Z as Hm'.
  { subst m'. destruct (ex - ey - e')%Z; try lia. by apply Z.shiftl_nonneg. }
  pose proof (Z_div_mod m' (Z.pos my) ltac:(lia)) as Hdiv.
  destruct (Z.div_eucl m' (Z.pos my)) as [q r].
  rewrite xorb_false_r. apply binary_round_aux_rounded. nia.
Qed.

(** The sign of a difference of two numbers that are not negative. *)
Lemma SFsub_sign mx ex my ey :
  (emin <= ex)%Z -> (emin <= ey)%Z ->
  let d := SFsub prec emax (S754_finite false mx ex) (S754_finite false my ey) in
  match (Z.pos mx * 2 ^ (ex - emin) ?= Z.pos my * 2 ^ (ey - emin))%Z with
  | Eq => d = S754_zero false
  | Lt => rounded prec emax true d /\ nonzero d
  | Gt => rounded prec emax false d /\ nonzero d
  end.
Proof.
  intros Hx Hy. simpl. set (ez := Z.min ex ey).
  rewrite !shl_align_value by lia.
  assert (emin <= ez)%Z as Hz by lia.
  assert (Z.pos mx * 2 ^ (ex - emin) = Z.pos mx * 2 ^ (ex - ez) * 2 ^ (ez - emin))%Z as ->.
  { rewrite <- Z.mul_assoc, <- Z.pow_add_r by lia. do 2 f_equal. lia. }
  assert (Z.pos my * 2 ^ (ey - emin) = Z.pos my * 2 ^ (ey - ez) * 2 ^ (ez - emin))%Z as ->.
  { rewrite <- Z.mul_assoc, <- Z.pow_add_r by lia. do 2 f_equal. lia. }
  assert (0 < 2 ^ (ez - emin))%Z as Hpow by (apply Z.pow_pos_nonneg; lia).
  set (X := (Z.pos mx * 2 ^ (ex - ez))%Z). set (Y := (Z.pos my * 2 ^ (ey - ez))%Z).
  destruct (Z.compare_spec (X * 2 ^ (ez - emin)) (Y * 2 ^ (ez - emin))) as [E|E|E].
  - replace (X - Y)%Z with 0%Z by nia. done.
  - destruct (X - Y)%Z as [|d|d] eqn:Ed; try nia.
    simpl. by apply binary_round_rounded.
  - destruct (X - Y)%Z as [|d|d] eqn:Ed; try nia.
    simpl. by apply binary_round_rounded.
Qed.
End Rounding.
(** ** Numbers of versions *)

Lemma of_decimal_rounded neg n e : rounded prec emax neg (of_decimal neg n e).
Proof. destruct n as [|p]; simpl; [done|]. by apply SFdiv_rounded. Qed.

Lemma version_number_not_NaN x : version_number x -> isNaN x = false.
Proof. by destruct x. Qed.

Lemma span_digits_cons c s :
  is_digit c = true -> exists ds rest, span_digits (c :: s) = (c :: ds, rest).
Proof. intros Hc. simpl. rewrite Hc. destruct (span_digits s). by eexists _, _. Qed.

(** A text that starts with a digit parses to a number that is not [NaN]
    and not negative, whatever follows the digit. *)
Lemma parseFloat_digit c s :
  is_digit c = true -> version_number (parseFloat (c :: s)).
Proof.
  intros Hc. unfold parseFloat. simpl trimStart.
  rewrite (is_digit_not_space c Hc).
  assert (48 <= c <= 57)%N as Hr.
  { unfold is_digit in Hc. apply andb_true_iff in Hc as [H1 H2].
    apply N.leb_le in H1. apply N.leb_le in H2. lia. }
  destruct (N.eqb_spec c 43) as [->|_]; [lia|].
  destruct (N.eqb_spec c 45) as [->|_]; [lia|].
  unfold unsigned_decimal.
  assert (strip_prefix (js "Infinity") (c :: s) = None) as ->.
  { change (js "Infinity") with (73%N :: js "nfinity").
    apply strip_prefix_head_ne. lia. }
  destruct (span_digits_cons c s Hc) as (ds & rest & ->).
  match goal with
  | |- context [let (frac, s2) := ?e in _] => destruct e as [frac s2]
  end.
  simpl. destruct (exponent_part s2) as [e r].
  apply of_decimal_rounded.
Qed.

Lemma version_literal_digit v :
  version_literal v -> exists c s, v = c :: s /\ is_digit c = true.
Proof.
  intros [[Hne Hall]|(int & frac & -> & [Hne Hall] & _)].
  - destruct v as [|c s]; [done|]. exists c, s. split; [done|]. by inversion Hall.
  - destruct int as [|c s]; [done|]. exists c, (s ++ js "." ++ frac).
    split; [done|]. by inversion Hall.
Qed.

Lemma parseFloat_version_literal v :
  version_literal v -> version_number (parseFloat v).
Proof.
  intros Hv. destruct (version_literal_digit v Hv) as (c & s & -> & Hc).
  by apply parseFloat_digit.
Qed.

(** The sign of [x - y] tells which of the two is greater. *)
Lemma sub_gtb0 x y :
  version_number x -> version_number y ->
  if gtb0 (sub x y) then ge x y else ge y x.
Proof.
  unfold version_number, ge, gtb0, sub.
  destruct x as [sx|sx| |sx mx ex], y as [sy|sy| |sy my ey]; simpl;
    try done; intros Hx Hy;
    repeat match goal with
           | H : _ /\ _ |- _ => destruct H
           | H : ?s = false |- _ => subst s
           end; simpl; try done.
  - assert (0 < 2 ^ (ey - emin prec emax))%Z by (apply Z.pow_pos_nonneg; lia). lia.
  - assert (0 < 2 ^ (ex - emin prec emax))%Z by (apply Z.pow_pos_nonneg; lia). lia.
  - pose proof (SFsub_sign prec emax eq_refl mx ex my ey ltac:(done) ltac:(done)) as Hs.
    simpl in Hs. fold prec emax in Hs.
    set (d := binary_normalize _ _ _ _ _) in *. clearbody d.
    destruct (Z.compare_spec (Z.pos mx * 2 ^ (ex - emin prec emax))
                             (Z.pos my * 2 ^ (ey - emin prec emax))) as [E|E|E].
    + subst d. simpl. lia.
    + destruct Hs as [Hr Hn]. destruct d as [s|s| |s m e]; simpl in *;
        try done;
        repeat match goal with
               | H : _ /\ _ |- _ => destruct H
               | H : ?s = true |- _ => subst s
               end; simpl; lia.
    + destruct Hs as [Hr Hn]. destruct d as [s|s| |s m e]; simpl in *;
        try done;
        repeat match goal with
               | H : _ /\ _ |- _ => destruct H
               | H : ?s = false |- _ => subst s
               end; simpl; lia.
Qed.
(** ** The version the parser returns *)

(** Every section [matchAll] yields carries a version number and a body. *)
Lemma matchAll_sections content v :
  v ∈ matchAll versionPattern content ->
  exists body, groups v = [(2, body); (1, group 1 v)] /\ version_literal (group 1 v).
Proof.
  intros Hin. apply scan_elem in Hin as (before & here & rest & _ & Hex).
  apply versionPattern_match in Hex as (sp & lit & body & _ & _ & _ & Hlit & Hg & _).
  exists body. unfold group. rewrite Hg. by split.
Qed.

Lemma zero_version_literal : version_literal (js "0.0").
Proof.
  right. exists (js "0"), (js "0").
  repeat split; try done; by repeat constructor.
Qed.

Lemma extractPromptData_version content :
  version_literal (r_version (extractPromptData content)).
Proof.
  unfold extractPromptData.
  destruct (last (matchAll versionPattern content)) as [lastVersion|] eqn:E; simpl.
  - apply last_Some in E as [l' E].
    destruct (matchAll_sections content lastVersion) as (body & _ & Hlit); [|done].
    rewrite E. apply elem_of_app. right. by apply list_elem_of_singleton.
  - apply zero_version_literal.
Qed.

(** ** Sorting by version *)

Lemma insert_sorted_perm {A} (cmp : A -> A -> number) x l :
  insert_sorted cmp x l ≡ₚ x :: l.
Proof.
  induction l as [|y l IH]; simpl; [done|].
  destruct (gtb0 (cmp y x)); [done|]. rewrite IH. apply Permutation_swap.
Qed.

Lemma sort_perm {A} (cmp : A -> A -> number) l : sort cmp l ≡ₚ l.
Proof.
  unfold sort. rewrite <- (app_nil_l l) at 2. generalize (@nil A) as acc.
  induction l as [|x l IH]; intros acc; simpl.
  - by rewrite app_nil_r.
  - rewrite IH, insert_sorted_perm. simpl. apply Permutation_middle.
Qed.

Lemma compareVersions_cases x y :
  valid_version x -> valid_version y ->
  gtb0 (compareVersions y x) = true /\ version_ge x y \/
  gtb0 (compareVersions y x) = false /\ version_ge y x.
Proof.
  intros Hx Hy. pose proof (sub_gtb0 _ _ Hx Hy) as Hcmp.
  unfold compareVersions, version_ge.
  destruct (gtb0 (sub (parseFloat (version x)) (parseFloat (version y)))); auto.
Qed.

Lemma insert_sorted_HdRel {A} (R : A -> A -> Prop) (cmp : A -> A -> number) y x l :
  R y x -> HdRel R y l -> HdRel R y (insert_sorted cmp x l).
Proof.
  intros Hyx Hhd. destruct l as [|z l]; simpl; [by constructor|].
  destruct (gtb0 (cmp z x)); constructor; [done|]. by inversion Hhd.
Qed.

Lemma insert_sorted_Sorted x l :
  valid_version x -> Forall valid_version l -> Sorted version_ge l ->
  Sorted version_ge (insert_sorted compareVersions x l).
Proof.
  intros Hx Hall Hs. induction l as [|y l IH]; simpl.
  - by repeat constructor.
  - apply Forall_cons in Hall as [Hy Hall].
    destruct (compareVersions_cases x y Hx Hy) as [[-> Hge]|[-> Hge]].
    + constructor; [done|]. by constructor.
    + inversion Hs as [|? ? Hs' Hhd]; subst. constructor; [by apply IH|].
      by apply insert_sorted_HdRel.
Qed.

Lemma sort_Sorted l :
  Forall valid_version l -> Sorted version_ge (sort compareVersions l).
Proof.
  unfold sort. intros Hall.
  assert (Sorted version_ge [] /\ Forall valid_version []) as Hacc by (split; constructor).
  revert Hacc. generalize (@nil PromptData) as acc.
  induction l as [|x l IH]; intros acc [Hs Hv]; simpl; [done|].
  apply Forall_cons in Hall as [Hx Hall]. apply IH; [done|]. split.
  - by apply insert_sorted_Sorted.
  - rewrite insert_sorted_perm. by constructor.
Qed.

Lemma Sorted_adjacent {A} (R : A -> A -> Prop) (l : list A) i a b :
  Sorted R l -> l !! i = Some a -> l !! S i = Some b -> R a b.
Proof.
  intros Hs. revert i. induction Hs as [|x l Hs IH Hhd]; intros i Ha Hb; [done|].
  destruct i as [|i]; simpl in *.
  - injection Ha as ->. destruct l as [|y l]; [done|]. injection Hb as ->.
    by inversion Hhd.
  - by eapply IH.
Qed.

Lemma all_Some {X Y} (f : X -> option Y) l ys :
  all f l = Some ys -> Forall (fun y => exists x, x ∈ l /\ f x = Some y) ys.
Proof.
  revert ys. induction l as [|x l IH]; simpl; intros ys Hall.
  - injection Hall as <-. constructor.
  - destruct (f x) as [y|] eqn:E; [|done].
    destruct (all f l) as [ys'|]; [|done]. injection Hall as <-.
    constructor.
    + exists x. split; [left|done].
    + eapply Forall_impl; [by apply IH|]. intros y' (x' & Hin & Hf).
      exists x'. split; [by right|done].
Qed.
(** * The claims *)

(** ** The version parser *)



(** C2 fails on the code: the example document has two headings, and the
    parser returns the first one only, as version, details and full
    content. *)
Theorem C2_last_section_lost :
  length (matchAll versionPattern example_document) = 1 /\
  extractPromptData example_document =
    {| r_version := js "1.0"; r_details := js "Foo";
       r_fullContent := js "### Version 1.0\nFoo\n" |}.
Proof. split; by vm_compute. Qed.

(** The text the New Prompt dialog writes has one heading, not followed by
    another heading or by the letter z: the parser finds no section in it. *)
Example new_prompt_text_has_no_section :
  extractPromptData (js "### Version 1.0\n\nNew prompt content") =
    {| r_version := js "0.0";
       r_details := js "### Version 1.0\n\nNew prompt content";
       r_fullContent := js "### Version 1.0\n\nNew prompt content" |}.
Proof. by vm_compute. Qed.

(** With the letter z after the last body the pattern matches both
    sections of the example document; three line feeds then stand between
    the first body and the second heading. *)
Example example_document_closed_by_z :
  extractPromptData (example_document ++ js "z") =
    {| r_version := js "2.0"; r_details := js "Bar";
       r_fullContent := js "### Version 1.0\nFoo\n\n\n### Version 2.0\nBar" |}.
Proof. by vm_compute. Qed.



(** C10: the version the parser returns is 0.0 or digits with an optional
    dot and digits, and [parseFloat] of it is not [NaN]. *)
Theorem C10_version_is_decimal (content : jsstring) :
  let v := r_version (extractPromptData content) in
  (v = js "0.0" \/ version_literal v) /\ isNaN (parseFloat v) = false.
Proof.
  intros v. pose proof (extractPromptData_version content) as Hv. fold v in Hv.
  split; [by right|].
  by apply version_number_not_NaN, parseFloat_version_literal.
Qed.
(** ** The prompt repository *)

Section Repository.
Context {H : Type} `{Host H}.

Lemma loadPrompt_valid (h : H) f p : loadPrompt h f = Some p -> valid_version p.
Proof.
  unfold loadPrompt. destruct (read h f) as [content|]; [|done].
  intros [= <-]. unfold valid_version. simpl.
  apply parseFloat_version_literal, extractPromptData_version.
Qed.

(** C4: with an empty folder path, or one that names no folder, [refresh]
    returns, shows one notice, and changes nothing else: the prompts, the
    rendered items and the host are as before. *)
Theorem C4_refresh_without_folder (w : State) :
  promptFolderPath w = [] \/
  (forall d, getAbstractFileByPath (host w) (promptFolderPath w) <> Some (AFolder d)) ->
  exists message w',
    refresh w = (Returned tt, w') /\
    effects w' = effects w ++ [Notice message] /\
    prompts w' = prompts w /\ items w' = items w /\ host w' = host w /\
    viewType w' = viewType w /\ promptFolderPath w' = promptFolderPath w.
Proof.
  intros Hbad. unfold refresh.
  destruct (promptFolderPath w) as [|c path] eqn:Ep.
  - by eexists _, _.
  - destruct Hbad as [?|Hbad]; [done|].
    destruct (getAbstractFileByPath (host w) (c :: path)) as [[f|d]|] eqn:Eg.
    + by eexists _, _.
    + by destruct (Hbad d).
    + by eexists _, _.
Qed.

(** C5: after a [refresh] that found its folder and returned, the
    collection holds the records of the folder's [md] files, and the version
    of every record parses to a number and is at least the version of the
    record after it. *)
Theorem C5_refresh_sorted (w w' : State) (folder : TFolder) :
  promptFolderPath w <> [] ->
  getAbstractFileByPath (host w) (promptFolderPath w) = Some (AFolder folder) ->
  refresh w = (Returned tt, w') ->
  (exists loaded,
     all (loadPrompt (host w))
         (List.filter is_md (List.filter (in_folder folder) (getFiles (host w))))
       = Some loaded /\
     prompts w' ≡ₚ loaded) /\
  forall i a b,
    prompts w' !! i = Some a -> prompts w' !! S i = Some b ->
    isNaN (parseFloat (version a)) = false /\
    isNaN (parseFloat (version b)) = false /\
    ge (parseFloat (version a)) (parseFloat (version b)).
Proof.
  intros Hne Hfolder Hrun. unfold refresh in Hrun.
  destruct (promptFolderPath w) as [|c path]; [done|]. rewrite Hfolder in Hrun.
  destruct (all _ _) as [loaded|] eqn:Eall; [|done].
  injection Hrun as <-. cbn [prompts set_prompts].
  split; [exists loaded; split; [done|apply sort_perm]|].
  intros i a b Ha Hb.
  assert (Forall valid_version loaded) as Hvalid.
  { eapply Forall_impl; [by apply all_Some in Eall|].
    intros p (f & _ & Hp). by eapply loadPrompt_valid. }
  assert (Forall valid_version (sort compareVersions loaded)) as Hsorted.
  { by rewrite sort_perm. }
  rewrite Forall_lookup in Hsorted.
  repeat split.
  - by eapply version_number_not_NaN, Hsorted.
  - by eapply version_number_not_NaN, Hsorted.
  - by eapply (Sorted_adjacent version_ge), Hb; [apply sort_Sorted|].
Qed.
End Repository.

Lemma C4_refresh_without_folder_witness :
  exists message w',
    refresh (start sample_vault []) = (Returned tt, w') /\
    effects w' = [Notice message] /\ prompts w' = [].
Proof.
  destruct (C4_refresh_without_folder (start sample_vault []) (or_introl eq_refl))
    as (message & w' & Hrun & Heff & Hp & _).
  by exists message, w'.
Defined.

Lemma C5_refresh_sorted_witness :
  map version (prompts (snd (refresh (start sample_vault (js "prompts")))))
    = [js "10"; js "1.5"; js "0.0"] /\
  ge (parseFloat (js "10")) (parseFloat (js "1.5")).
Proof.
  split; [by vm_compute|].
  refine (proj2 (proj2
    (proj2 (C5_refresh_sorted (start sample_vault (js "prompts"))
       (snd (refresh (start sample_vault (js "prompts"))))
       {| folder_path := js "prompts" |} _ _ _) 0
       {| name := js "b"; version := js "10"; details := js "Beta";
          fullContent := js "### Version 10\nBeta\n";
          file := file_at (js "prompts/b.md") |}
       {| name := js "a"; version := js "1.5"; details := js "Alpha";
          fullContent := js "### Version 1.5\nAlpha\n";
          file := file_at (js "prompts/a.md") |} _ _))).
  - done.
  - by vm_compute.
  - by vm_compute.
  - by vm_compute.
  - by vm_compute.
Defined.
(** ** The view *)

Section ViewClaims.
Context {H : Type} {host_ops : Host H}.
Variable toLowerCase : jsstring -> jsstring.

Lemma render_items (w : @State H) i :
  items (snd (render w)) !! i =
    (fun prompt =>
       {| kind := match viewType w with ViewList => Row | ViewBoard => Card end;
          textContent := match viewType w with
                         | ViewList => rowText prompt
                         | ViewBoard => cardText prompt
                         end;
          display := []; item_prompt := prompt |}) <$> prompts w !! i.
Proof.
  unfold render, modify; simpl.
  destruct (viewType w); unfold renderBoard, renderList; by rewrite list_lookup_fmap.
Qed.

(** C7: the Copy handler of a record hands the record's details to the
    clipboard and then shows one notice: of success when the write is
    accepted, of failure, after an error on the console, when it is
    rejected.  The handler of every rendered row and card is that of the
    record at its place in the collection. *)
Theorem C7_copy_writes_details (prompt : PromptData) (w : @State H) :
  (exists w' report,
     copyClick prompt w = (Returned tt, w') /\
     effects w' = effects w ++ ClipboardWrite (details prompt) :: report /\
     prompts w' = prompts w /\
     match clipboard_writeText (host w) (details prompt) with
     | Some h' =>
         host w' = h' /\
         report = [Notice (js "Copied prompt version " ++ version prompt ++ js " content")]
     | None =>
         host w' = host w /\
         report = [ConsoleError (js "Failed to copy: "); Notice (js "Failed to copy content")]
     end) /\
  (forall i item, items (snd (render w)) !! i = Some item ->
                  prompts w !! i = Some (item_prompt item)).
Proof.
  split.
  - unfold copyClick. cbn [host emit].
    destruct (clipboard_writeText (host w) (details prompt)) as [h'|];
      eexists _, _; (split; [reflexivity|]); cbn [effects prompts host emit set_host];
      rewrite <- ?app_assoc; done.
  - intros i item. rewrite render_items.
    destruct (prompts w !! i) as [p|]; simpl; [|done]. by intros [= <-].
Qed.

(** C9: confirmed with an empty name, the callback of the dialog does
    nothing, and all the Create button does is close the dialog: no file is
    created, nothing is shown, the prompts stay as they were. *)
Theorem C9_empty_name_ignored (w : @State H) :
  newPromptCallback [] w = (Returned tt, w) /\
  exists w', submitClick [] w = (Returned tt, w') /\
             host w' = host w /\ effects w' = effects w /\
             prompts w' = prompts w /\ items w' = items w /\ modalOpen w' = false.
Proof. split; [done|]. by eexists. Qed.

(** What the search box does to one rendered item. *)
Lemma filterItem_display searchTerm item :
  (display (filterItem toLowerCase searchTerm item) = [] <->
   occurs_in searchTerm (toLowerCase (textContent item))) /\
  (display (filterItem toLowerCase searchTerm item) = js "none" <->
   ~ occurs_in searchTerm (toLowerCase (textContent item))).
Proof.
  unfold filterItem; simpl. rewrite <- includes_spec.
  destruct (includes (toLowerCase (textContent item)) searchTerm); simpl.
  - by repeat split.
  - by repeat split.
Qed.

(** C8, amended: after a render, the search box leaves the collection as
    it is and sets the display of each row or card: visible exactly when
    the lower-cased search text occurs in the lower-cased text of the row
    or card, and [none] exactly when it does not.  In particular, when it
    occurs in the text of the row or card at place [n] and of no other,
    that one alone is visible. *)
Theorem C8_search_filter (w0 : @State H) (value : jsstring) :
  let w := snd (render w0) in
  let w' := snd (onSearchInput toLowerCase value w) in
  let text prompt := match viewType w0 with
                     | ViewList => rowText prompt
                     | ViewBoard => cardText prompt
                     end in
  let found prompt := occurs_in (toLowerCase value) (toLowerCase (text prompt)) in
  fst (onSearchInput toLowerCase value w) = Returned tt /\
  prompts w' = prompts w0 /\
  length (items w') = length (prompts w0) /\
  (forall i prompt, prompts w0 !! i = Some prompt ->
     exists item, items w' !! i = Some item /\
       item_prompt item = prompt /\ textContent item = text prompt /\
       (display item = [] <-> found prompt) /\
       (display item = js "none" <-> ~ found prompt)) /\
  (forall n, (forall i prompt, prompts w0 !! i = Some prompt -> (found prompt <-> i = n)) ->
     forall i item, items w' !! i = Some item ->
       (display item = [] <-> i = n) /\ (display item = js "none" <-> i <> n)).
Proof.
  intros w w' text found.
  assert (items w' =
            (fun prompt => filterItem toLowerCase (toLowerCase value)
               {| kind := match viewType w0 with ViewList => Row | ViewBoard => Card end;
                  textContent := text prompt; display := []; item_prompt := prompt |})
            <$> prompts w0) as Hitems.
  { subst w' w text. unfold onSearchInput, filterPrompts, render, modify.
    cbn [snd items viewType set_items prompts].
    destruct (viewType w0); unfold renderBoard, renderList;
      by rewrite <- list_fmap_compose. }
  assert (forall i prompt, prompts w0 !! i = Some prompt ->
     exists item, items w' !! i = Some item /\
       item_prompt item = prompt /\ textContent item = text prompt /\
       (display item = [] <-> found prompt) /\
       (display item = js "none" <-> ~ found prompt)) as Heach.
  { intros i prompt Hp. rewrite Hitems, list_lookup_fmap, Hp. eexists.
    split; [done|]. split; [done|]. split; [done|]. apply filterItem_display. }
  split; [done|]. split; [done|]. split; [by rewrite Hitems, length_fmap|].
  split; [done|].
  intros n Honly i item Hitem.
  pose proof Hitem as Hi. rewrite Hitems, list_lookup_fmap in Hi.
  destruct (prompts w0 !! i) as [prompt|] eqn:Hp; [|done].
  destruct (Heach i prompt Hp) as (item' & Hi' & _ & _ & Hshown & Hhidden).
  rewrite Hitem in Hi'. injection Hi' as <-.
  rewrite Hshown, Hhidden. by rewrite (Honly i prompt Hp).
Qed.
End ViewClaims.
(** A record whose details are [Bar], copied with a clipboard that accepts
    the write: the clipboard holds [Bar]. *)
Example copy_Bar :
  let bar := {| name := js "b"; version := js "2.0"; details := js "Bar";
                fullContent := js "### Version 1.0\nFoo\n\n\n### Version 2.0\nBar";
                file := file_at (js "prompts/b.md") |} in
  let w' := snd (copyClick bar (start sample_vault (js "prompts"))) in
  clipboard (host w') = Some (js "Bar") /\
  effects w' = [ClipboardWrite (js "Bar"); Notice (js "Copied prompt version 2.0 content")].
Proof. by vm_compute. Qed.

(** C3 fails on the code: confirmed with the name Greeting and the folder
    [prompts] configured and present, the dialog creates [Greeting.md] in
    the root of the vault and no file in [prompts], so that the refresh that
    follows does not list it; [createPrompt] of the plugin, on the same
    state, creates [prompts/Greeting.md]. *)
Theorem C3_dialog_creates_at_root :
  let w := start sample_vault (js "prompts") in
  let content := js "### Version 1.0\n\nNew prompt content" in
  (exists w' created,
     submitClick (js "Greeting") w = (Returned tt, w') /\
     effects w' = [VaultCreate (js "Greeting.md") content] /\
     lookup_path (host w') (js "Greeting.md") = Some (AFile created) /\
     parent created = Some {| folder_path := js "/" |} /\
     lookup_path (host w') (js "prompts/Greeting.md") = None /\
     map name (prompts w') = [js "b"; js "a"; js "d"]) /\
  (exists w',
     createPrompt (js "Greeting") content w = (Returned tt, w') /\
     effects w' = [VaultCreate (js "prompts/Greeting.md") content]).
Proof. split; eexists; [eexists|]; by vm_compute. Qed.

(** C8, as stated, fails: in the list view of two records named Copywriter
    and Poet, the search text [copy] occurs in the name of the first record
    only, and the row of the second stays visible, for it holds the label of
    its Copy button. *)
Lemma C8_counterexample :
  let record n v := {| name := n; version := v; details := [];
                       fullContent := []; file := file_at (js "prompts/x.md") |} in
  let records := [record (js "Copywriter") (js "1.0"); record (js "Poet") (js "2.0")] in
  let w := set_prompts records (start sample_vault (js "prompts")) in
  let w' := snd (onSearchInput asciiLower (js "copy") (snd (render w))) in
  (forall i prompt, records !! i = Some prompt ->
     (occurs_in (asciiLower (js "copy")) (asciiLower (name prompt)) <-> i = 0)) /\
  exists item, items w' !! 1 = Some item /\ display item = [].
Proof.
  intros record records w w'. split.
  - intros [|[|i]] prompt Hi; try done; injection Hi as <-;
      rewrite <- includes_spec; by vm_compute.
  - eexists. by vm_compute.
Qed.

(** * Further properties *)

(** ** The sections of a document *)

Lemma exec_at_split r s rest caps :
  exec_at r s = Some (rest, caps) ->
  exists m, s = m ++ rest /\ matches r m rest [] caps.
Proof.
  unfold exec_at. intros Hrun.
  apply run_sound in Hrun as (m & s2 & c & -> & Hm & Hk). injection Hk as -> ->.
  by exists m.
Qed.

Lemma tiles_grow ms gap s : tiles ms s -> tiles ms (gap ++ s).
Proof.
  intros [s'|gap' m ms' s' Ht]; [constructor|].
  rewrite app_assoc. by constructor.
Qed.

(** The elements of [matchAll], each with the place where it was found:
    the matched texts lie in the input in order and without overlap. *)
Lemma scan_tiles r s : forall skip,
  skip <= length s -> tiles (map matched (scan r skip s)) (drop skip s).
Proof.
  induction s as [|c s IH]; intros skip Hskip.
  - destruct skip; [|simpl in Hskip; lia]. simpl.
    destruct (exec_at r []) as [[rest caps]|]; [|constructor].
    apply (tiles_cons [] [] [] []). constructor.
  - destruct skip as [|n]; cbn [scan].
    + destruct (exec_at r (c :: s)) as [[rest caps]|] eqn:E.
      * apply exec_at_split in E as (m & E & _). cbn [map matched drop].
        assert (length (c :: s) - length rest = length m) as ->.
        { rewrite E, length_app. lia. }
        assert (take (length m) (c :: s) = m) as ->.
        { rewrite E. apply take_app_length. }
        destruct m as [|d m].
        -- simpl in E. subst rest. apply (tiles_cons [] [] _ (c :: s)).
           apply (tiles_grow _ [c]). apply (IH 0). lia.
        -- injection E as <- ->. apply (tiles_cons [] (c :: m) _ rest).
           replace rest with (drop (length m) (m ++ rest)) at 2
             by apply drop_app_length.
           replace (length (c :: m) - 1) with (length m) by (simpl; lia).
           apply IH. rewrite length_app. lia.
      * apply (tiles_grow _ [c]). apply (IH 0). lia.
    + apply IH. simpl in Hskip. lia.
Qed.

Lemma scan_elem_matched r skip s v :
  v ∈ scan r skip s ->
  exists here rest, exec_at r here = Some (rest, groups v) /\
                    here = matched v ++ rest.
Proof.
  revert skip. induction s as [|c s IH]; intros skip Hin; cbn [scan] in Hin.
  - destruct skip; [|by apply elem_of_nil in Hin].
    destruct (exec_at r []) as [[rest caps]|] eqn:E; [|by apply elem_of_nil in Hin].
    apply list_elem_of_singleton in Hin as ->. exists [], rest. split; [done|].
    apply exec_at_split in E as (m & E & _). by destruct m.
  - destruct skip as [|n]; [|by eapply IH].
    destruct (exec_at r (c :: s)) as [[rest caps]|] eqn:E; [|by eapply IH].
    apply elem_of_cons in Hin as [->|Hin]; [|by eapply IH].
    exists (c :: s), rest. split; [done|]. cbn [matched].
    apply exec_at_split in E as (m & E & _).
    assert (length (c :: s) - length rest = length m) as ->.
    { rewrite E, length_app. lia. }
    rewrite E at 2. rewrite E. by rewrite take_app_length.
Qed.

(** X3: the sections the parser finds are pieces of the document, in
    document order and without overlap; each is the heading, white space,
    a number, a line feed and the body, the number and the body being what
    the parser keeps of it. *)
Theorem sections_in_document (content : jsstring) :
  let versionMatches := matchAll versionPattern content in
  tiles (map matched versionMatches) content /\
  Forall (fun v =>
            exists space,
              matched v = js "### Version" ++ space ++ group 1 v ++ js "\n" ++ group 2 v /\
              space <> [] /\ Forall (fun c => is_space c = true) space /\
              version_literal (group 1 v))
         versionMatches.
Proof.
  split.
  - apply (scan_tiles versionPattern content 0). lia.
  - apply Forall_forall. intros v Hin.
    apply scan_elem_matched in Hin as (here & rest & Hex & Hhere).
    apply versionPattern_match in Hex
      as (sp & lit & body & Hs & Hne & Hsp & Hlit & Hg & _).
    exists sp. unfold group. rewrite Hg. cbn [capture Nat.eqb default].
    repeat split; try done.
    rewrite Hhere in Hs. rewrite !app_assoc in Hs. apply app_inv_tail in Hs.
    by rewrite Hs, <- !app_assoc.
Qed.

Lemma occurrences_suffix t before s : occurrences t s <= occurrences t (before ++ s).
Proof. induction before as [|c before IH]; simpl; lia. Qed.

Lemma occurrences_prefix t s : occurrences t (t ++ s) >= 1.
Proof. destruct (t ++ s) eqn:E; simpl; rewrite <- E, strip_prefix_app; lia. Qed.

(** The fallback the parser returns for a text without sections. *)
Lemma no_match_fallback content :
  (forall v, v ∉ matchAll versionPattern content) ->
  extractPromptData content =
    {| r_version := js "0.0"; r_details := trim content; r_fullContent := content |}.
Proof.
  intros Hnone. unfold extractPromptData.
  destruct (matchAll versionPattern content) as [|v l]; [done|].
  destruct (Hnone v). left.
Qed.

(** X1: a text in which [### Version] does not occur is returned as
    version 0.0, with the trimmed text as details and the text as it is as
    full content. *)
Theorem no_heading_is_unversioned (content : jsstring) :
  includes content (js "### Version") = false ->
  extractPromptData content =
    {| r_version := js "0.0"; r_details := trim content; r_fullContent := content |}.
Proof.
  intros Hno. apply no_match_fallback. intros v Hin.
  apply scan_elem in Hin as (before & here & rest & -> & Hex).
  apply versionPattern_match in Hex as (sp & lit & body & -> & _).
  assert (includes (before ++ js "### Version" ++ sp ++ lit ++ js "\n" ++ body ++ rest)
                   (js "### Version") = true) as Hyes; [|congruence].
  apply includes_spec. by eexists _, _.
Qed.

Lemma no_heading_is_unversioned_witness :
  extractPromptData (js "  Summarise the text.\n") =
    {| r_version := js "0.0"; r_details := js "Summarise the text.";
       r_fullContent := js "  Summarise the text.\n" |}.
Proof. exact (no_heading_is_unversioned (js "  Summarise the text.\n") eq_refl). Defined.

(** X2: a section is found only where its body is followed by a further
    heading or by the letter z.  So a text without the letter z in which
    [### Version] starts at one place at most has no section and is
    returned as version 0.0, its heading notwithstanding. *)
Theorem lone_heading_is_lost (content : jsstring) :
  includes content (js "z") = false ->
  occurrences (js "### Version") content <= 1 ->
  extractPromptData content =
    {| r_version := js "0.0"; r_details := trim content; r_fullContent := content |}.
Proof.
  intros Hz Hone. apply no_match_fallback. intros v Hin.
  apply scan_elem in Hin as (before & here & rest & -> & Hex).
  apply versionPattern_match in Hex as (sp & lit & body & -> & Hsp & _ & _ & _ & Htail).
  destruct Htail as (tail & [->| ->]).
  - pose proof (occurrences_suffix (js "### Version") before
      (js "### Version" ++ sp ++ lit ++ js "\n" ++ body ++ js "### Version" ++ tail)) as H1.
    pose proof (occurrences_suffix (js "### Version")
      (js "## Version" ++ sp ++ lit ++ js "\n" ++ body) (js "### Version" ++ tail)) as H2.
    pose proof (occurrences_prefix (js "### Version") tail) as H3.
    assert (occurrences (js "### Version")
              (js "### Version" ++ sp ++ lit ++ js "\n" ++ body ++ js "### Version" ++ tail)
            = 1 + occurrences (js "### Version")
                    ((js "## Version" ++ sp ++ lit ++ js "\n" ++ body)
                       ++ js "### Version" ++ tail)) as H4.
    { change (js "### Version") with (35%N :: js "## Version") at 2.
      cbn [app occurrences]. rewrite <- !app_assoc.
      change (35%N :: js "## Version" ++ sp ++ lit ++ js "\n" ++ body ++ js "### Version" ++ tail)
        with (js "### Version" ++ sp ++ lit ++ js "\n" ++ body ++ js "### Version" ++ tail).
      by rewrite strip_prefix_app. }
    lia.
  - assert (includes (before ++ js "### Version" ++ sp ++ lit ++ js "\n" ++ body
                        ++ js "z" ++ tail) (js "z") = true) as Hyes; [|congruence].
    apply includes_spec.
    exists (before ++ js "### Version" ++ sp ++ lit ++ js "\n" ++ body), tail.
    by rewrite <- !app_assoc.
Qed.

Lemma lone_heading_is_lost_witness :
  extractPromptData (js "### Version 1.0\n\nNew prompt content") =
    {| r_version := js "0.0";
       r_details := js "### Version 1.0\n\nNew prompt content";
       r_fullContent := js "### Version 1.0\n\nNew prompt content" |}.
Proof.
  refine (lone_heading_is_lost (js "### Version 1.0\n\nNew prompt content") eq_refl _).
  vm_compute. lia.
Defined.

(** ** The details *)

Lemma trimStart_split s :
  exists ws, s = ws ++ trimStart s /\ Forall (fun c => is_space c = true) ws.
Proof.
  induction s as [|c s (ws & IH & Hws)]; simpl; [by exists []|].
  destruct (is_space c) eqn:Hc; [|by exists []].
  exists (c :: ws). split; [by rewrite IH at 1|by constructor].
Qed.

Lemma trimStart_head s c s' : trimStart s = c :: s' -> is_space c = false.
Proof.
  induction s as [|d s IH]; simpl; [done|].
  destruct (is_space d) eqn:Hd; [done|]. by intros [= <- _].
Qed.

Lemma trimEnd_split s :
  exists ws, s = trimEnd s ++ ws /\ Forall (fun c => is_space c = true) ws.
Proof.
  unfold trimEnd. destruct (trimStart_split (rev s)) as (ws & E & Hws).
  exists (rev ws). split; [|by apply Forall_rev].
  rewrite <- rev_app_distr, <- E. by rewrite rev_involutive.
Qed.

Lemma trim_trimmed s : trimmed (trim s).
Proof.
  unfold trim. split.
  - intros c s' E. destruct (trimEnd_split (trimStart s)) as (ws & E' & _).
    rewrite E in E'. by apply trimStart_head in E'.
  - intros s' c E. unfold trimEnd in E.
    apply (f_equal (@rev N)) in E. rewrite rev_involutive, rev_app_distr in E.
    by apply trimStart_head in E.
Qed.

Lemma trim_occurs s : occurs_in (trim s) s.
Proof.
  unfold trim. destruct (trimStart_split s) as (ws1 & E1 & _).
  destruct (trimEnd_split (trimStart s)) as (ws2 & E2 & _).
  exists ws1, ws2. by rewrite <- E2.
Qed.

Lemma occurs_in_trans a b c : occurs_in a b -> occurs_in b c -> occurs_in a c.
Proof.
  intros (p1 & q1 & ->) (p2 & q2 & ->). exists (p2 ++ p1), (q1 ++ q2).
  by rewrite <- !app_assoc.
Qed.

(** X4: the details the parser returns have no white space at either
    end, and stand in the document as they are. *)
Theorem details_trimmed_piece (content : jsstring) :
  trimmed (r_details (extractPromptData content)) /\
  occurs_in (r_details (extractPromptData content)) content.
Proof.
  unfold extractPromptData.
  destruct (last (matchAll versionPattern content)) as [lastVersion|] eqn:E;
    cbn [r_details].
  - split; [apply trim_trimmed|].
    eapply occurs_in_trans; [apply trim_occurs|].
    apply last_Some in E as [l' E].
    assert (lastVersion ∈ matchAll versionPattern content) as Hin.
    { rewrite E. apply elem_of_app. right. by apply list_elem_of_singleton. }
    apply scan_elem in Hin as (before & here & rest & -> & Hex).
    apply versionPattern_match in Hex as (sp & lit & body & -> & _ & _ & _ & Hg & _).
    unfold group. rewrite Hg. cbn [capture Nat.eqb default].
    exists (before ++ js "### Version" ++ sp ++ lit ++ js "\n"), rest.
    by rewrite <- !app_assoc.
  - split; [apply trim_trimmed|apply trim_occurs].
Qed.

(** ** The comparator *)



Section Comparator.
Context {H : Type} {host_ops : Host H}.

End Comparator.


(** ** What a refresh loads *)

Section Loading.
Context {H : Type} {host_ops : Host H}.

Lemma all_loadPrompt (h : H) l loaded :
  all (loadPrompt h) l = Some loaded ->
  map file loaded = l /\
  Forall (fun p => exists content,
            read h (file p) = Some content /\
            name p = basename (file p) /\
            version p = r_version (extractPromptData content) /\
            details p = r_details (extractPromptData content) /\
            fullContent p = r_fullContent (extractPromptData content)) loaded.
Proof.
  revert loaded. induction l as [|f l IH]; simpl; intros loaded Hall.
  - injection Hall as <-. by split.
  - destruct (loadPrompt h f) as [p|] eqn:Ep; [|done].
    destruct (all (loadPrompt h) l) as [ps|]; [|done]. injection Hall as <-.
    destruct (IH ps eq_refl) as [Hfiles Hps].
    unfold loadPrompt in Ep. destruct (read h f) as [content|] eqn:Er; [|done].
    injection Ep as <-. cbn [map file]. split; [by rewrite Hfiles|].
    constructor; [|done]. by exists content.
Qed.

(** X6: a [refresh] that found its folder and returned has shown no
    notice and left the host alone; the files of its records are the [md]
    files lying directly in the folder, each once, and every record has the
    base name of its file as name and what the parser returns for the
    file's text as version, details and full content. *)
Theorem refresh_loads_folder (w w' : @State H) (folder : TFolder) :
  promptFolderPath w <> [] ->
  getAbstractFileByPath (host w) (promptFolderPath w) = Some (AFolder folder) ->
  refresh w = (Returned tt, w') ->
  map file (prompts w') ≡ₚ
    List.filter is_md (List.filter (in_folder folder) (getFiles (host w))) /\
  Forall (fun p => exists content,
            read (host w) (file p) = Some content /\
            name p = basename (file p) /\
            version p = r_version (extractPromptData content) /\
            details p = r_details (extractPromptData content) /\
            fullContent p = r_fullContent (extractPromptData content)) (prompts w') /\
  effects w' = effects w /\ host w' = host w /\ items w' = items w.
Proof.
  intros Hne Hfolder Hrun. unfold refresh in Hrun.
  destruct (promptFolderPath w) as [|c path]; [done|]. rewrite Hfolder in Hrun.
  destruct (all _ _) as [loaded|] eqn:Eall; [|done].
  injection Hrun as <-. cbn [prompts set_prompts effects host items].
  apply all_loadPrompt in Eall as [Hfiles Hloaded].
  split; [by rewrite sort_perm, Hfiles|].
  split; [by rewrite sort_perm|done].
Qed.

(** X7: [refresh] never touches the host, the rendered items, the view
    type or the setting.  When it throws it has changed nothing at all;
    when it shows a notice, it shows one and keeps the prompts as they
    were. *)
Theorem refresh_frame (w : @State H) :
  exists o w',
    refresh w = (o, w') /\
    host w' = host w /\ items w' = items w /\ viewType w' = viewType w /\
    promptFolderPath w' = promptFolderPath w /\ modalOpen w' = modalOpen w /\
    (o = Thrown -> w' = w) /\
    (effects w' = effects w \/
     exists message, effects w' = effects w ++ [Notice message] /\ prompts w' = prompts w).
Proof.
  unfold refresh. destruct (promptFolderPath w) as [|c path] eqn:Ep.
  { eexists _, _. split; [done|]. cbn. repeat split; try done. right. by eexists. }
  destruct (getAbstractFileByPath (host w) (c :: path)) as [[f|d]|].
  - eexists _, _. split; [done|]. cbn. repeat split; try done. right. by eexists.
  - destruct (all _ _) as [loaded|].
    + eexists _, _. split; [done|]. cbn. repeat split; try done. by left.
    + eexists _, _. split; [done|]. repeat split; try done. by left.
  - eexists _, _. split; [done|]. cbn. repeat split; try done. right. by eexists.
Qed.

(** X8: when [normalizePath] leaves the configured path as it is, the
    files of the records a successful [refresh] holds are the files
    [getPrompts] of the plugin returns. *)
Theorem refresh_agrees_with_getPrompts (w w' : @State H) (folder : TFolder) :
  normalizePath (host w) (promptFolderPath w) = promptFolderPath w ->
  promptFolderPath w <> [] ->
  getAbstractFileByPath (host w) (promptFolderPath w) = Some (AFolder folder) ->
  refresh w = (Returned tt, w') ->
  map file (prompts w') ≡ₚ getPrompts w.
Proof.
  intros Hnorm Hne Hfolder Hrun. unfold refresh in Hrun. unfold getPrompts.
  rewrite Hnorm, Hfolder.
  destruct (promptFolderPath w) as [|c path]; [done|]. rewrite Hfolder in Hrun.
  destruct (all _ _) as [loaded|] eqn:Eall; [|done].
  injection Hrun as <-. cbn [prompts set_prompts].
  apply all_loadPrompt in Eall as [Hfiles _]. rewrite sort_perm, Hfiles.
  generalize (getFiles (host w)) as l.
  induction l as [|f l IH]; [done|]. cbn [List.filter].
  unfold in_folder at 1.
  destruct (parent f) as [d|]; [|done].
  destruct (bool_decide (folder_path d = folder_path folder)); cbn [andb List.filter];
    [|done].
  unfold is_md at 1.
  destruct (bool_decide (extension f = js "md")); [|done]. by rewrite IH.
Qed.
End Loading.

Lemma refresh_loads_folder_witness :
  map file (prompts (snd (refresh (start sample_vault (js "prompts")))))
    ≡ₚ [file_at (js "prompts/a.md"); file_at (js "prompts/b.md");
        file_at (js "prompts/d.md")].
Proof.
  refine (proj1 (refresh_loads_folder (start sample_vault (js "prompts"))
                   (snd (refresh (start sample_vault (js "prompts"))))
                   {| folder_path := js "prompts" |} _ _ _)).
  - done.
  - by vm_compute.
  - by vm_compute.
Defined.

Lemma refresh_agrees_with_getPrompts_witness :
  map file (prompts (snd (refresh (start sample_vault (js "prompts")))))
    ≡ₚ getPrompts (start sample_vault (js "prompts")).
Proof.
  refine (refresh_agrees_with_getPrompts (start sample_vault (js "prompts"))
            (snd (refresh (start sample_vault (js "prompts"))))
            {| folder_path := js "prompts" |} _ _ _ _).
  - done.
  - done.
  - by vm_compute.
  - by vm_compute.
Defined.

(** ** The view under its handlers *)

Section Handlers.
Context {H : Type} {host_ops : Host H}.
Variable toLowerCase : jsstring -> jsstring.

Lemma rendered_as_rendered v ps : map as_rendered (rendered v ps) = rendered v ps.
Proof.
  destruct v; unfold rendered, renderBoard, renderList;
    rewrite <- list_fmap_compose; by apply list_fmap_ext.
Qed.

Lemma render_state (w : @State H) :
  render w = (Returned tt, set_items (rendered (viewType w) (prompts w)) w).
Proof. unfold render, modify, rendered. by destruct (viewType w). Qed.

(** How [refresh] followed by [render] ends. *)
Lemma refreshAndRender_cases (w : @State H) :
  (exists w1, refresh w = (Returned tt, w1) /\
              refreshAndRender w =
                (Returned tt, set_items (rendered (viewType w1) (prompts w1)) w1)) \/
  refreshAndRender w = (Thrown, w).
Proof.
  unfold refreshAndRender, mbind, M_bind, bind.
  destruct (refresh w) as [[[]|] w1] eqn:E.
  - left. exists w1. split; [done|]. apply render_state.
  - right. unfold refresh in E.
    destruct (promptFolderPath w); [done|].
    destruct (getAbstractFileByPath _ _) as [[f|d]|]; try done.
    destruct (all _ _); [done|]. by injection E as <-.
Qed.

Lemma mirrors_ext (w w' : @State H) :
  items w' = items w -> viewType w' = viewType w -> prompts w' = prompts w ->
  mirrors w -> mirrors w'.
Proof. unfold mirrors. by intros -> -> ->. Qed.

Lemma mirrors_rendered (w : @State H) :
  mirrors (set_items (rendered (viewType w) (prompts w)) w).
Proof. unfold mirrors. cbn. apply rendered_as_rendered. Qed.

Lemma refreshAndRender_mirrors (w : @State H) :
  mirrors w -> mirrors (snd (refreshAndRender w)).
Proof.
  intros Hw. destruct (refreshAndRender_cases w) as [(w1 & _ & ->)| ->]; [|done].
  apply mirrors_rendered.
Qed.

Lemma handle_mirrors e (w : @State H) :
  mirrors w -> mirrors (snd (handle toLowerCase e w)).
Proof.
  intros Hw. destruct e as [value| | |prompt|f| |value| ]; cbn [handle].
  - unfold mirrors in *. unfold onSearchInput, filterPrompts, modify. cbn.
    rewrite <- Hw, <- list_fmap_compose. apply list_fmap_ext.
    intros i item _. cbn. by destruct (selected (viewType w) item).
  - unfold onToggleView, mbind, M_bind, bind, modify. rewrite render_state. cbn [snd].
    apply mirrors_rendered.
  - by apply refreshAndRender_mirrors.
  - unfold copyClick. cbn [host emit].
    destruct (clipboard_writeText _ _); by eapply mirrors_ext, Hw.
  - by eapply mirrors_ext, Hw.
  - by eapply mirrors_ext, Hw.
  - unfold submitClick.
    destruct (newPromptCallback value w) as [o w'] eqn:E. cbn [snd].
    eapply (mirrors_ext w'); try done.
    unfold newPromptCallback in E. destruct value as [|c value].
    { by injection E as _ <-. }
    destruct (promptFolderPath w) as [|d path].
    { injection E as _ <-. by eapply mirrors_ext, Hw. }
    destruct (getAbstractFileByPath _ _) as [[f|folder]|].
    + injection E as _ <-. by eapply mirrors_ext, Hw.
    + cbn [host emit] in E. destruct (create _ _ _) as [[f h']|].
      * replace w' with (snd (refreshAndRender
          (set_host h' (emit (VaultCreate ((c :: value) ++ js ".md")
             (js "### Version 1.0\n\nNew prompt content")) w)))) by (by rewrite E).
        apply refreshAndRender_mirrors. by eapply mirrors_ext, Hw.
      * injection E as _ <-. by eapply mirrors_ext, Hw.
    + injection E as _ <-. by eapply mirrors_ext, Hw.
  - by eapply mirrors_ext, Hw.
Qed.

(** X9: once the items on screen are those of the collection, they stay
    so whatever the user does: search, toggle the view, refresh, copy, open
    a prompt, open, confirm or cancel the New Prompt dialog. *)
Theorem view_mirrors_collection (events : list user_event) (w : @State H) :
  mirrors w -> mirrors (after toLowerCase events w).
Proof.
  revert w. induction events as [|e events IH]; intros w Hw; [done|].
  cbn [after fold_left]. apply IH. by apply handle_mirrors.
Qed.


(** X11: the view toggle changes the view type and renders; it reads no
    file and shows nothing.  Toggled twice, the view is as after a render. *)
Theorem toggle_twice (w : @State H) :
  (exists w', onToggleView w = (Returned tt, w') /\
              viewType w' <> viewType w /\ prompts w' = prompts w /\
              host w' = host w /\ effects w' = effects w) /\
  snd (onToggleView (snd (onToggleView w))) = snd (render w).
Proof.
  unfold onToggleView, mbind, M_bind, bind, modify. rewrite !render_state. cbn.
  split.
  - eexists. split; [done|]. by destruct (viewType w).
  - unfold set_items, set_viewType. cbn. by destruct (viewType w).
Qed.

Lemma includes_empty s : includes s [] = true.
Proof. by destruct s. Qed.

(** X12: a search leaves no trace in the next one: searching for [b]
    after [a] gives the state that searching for [b] alone gives.  And the
    empty search term hides nothing. *)
Theorem search_replaces_filter (a b : jsstring) (w : @State H) :
  snd (filterPrompts toLowerCase b (snd (filterPrompts toLowerCase a w)))
    = snd (filterPrompts toLowerCase b w) /\
  Forall (fun item => selected (viewType w) item = true -> display item = [])
         (items (snd (filterPrompts toLowerCase [] w))).
Proof.
  unfold filterPrompts, modify. cbn. split.
  - unfold set_items. cbn. f_equal. rewrite <- list_fmap_compose.
    apply list_fmap_ext. intros i item _. cbn.
    destruct (selected (viewType w) item) eqn:Es; [|by rewrite Es].
    unfold selected in *. by cbn; rewrite Es.
  - apply Forall_fmap, Forall_true. intros item. cbn.
    destruct (selected (viewType w) item) eqn:Es; [|by rewrite Es].
    intros _. unfold filterItem. cbn. by rewrite includes_empty.
Qed.
End Handlers.

Lemma view_mirrors_collection_witness :
  mirrors (after asciiLower
             [Refresh; Search (js "alpha"); ToggleView; Submit (js "Greeting")]
             (start sample_vault (js "prompts"))).
Proof.
  exact (view_mirrors_collection asciiLower
           [Refresh; Search (js "alpha"); ToggleView; Submit (js "Greeting")]
           (start sample_vault (js "prompts")) eq_refl).
Defined.

(** ** The New Prompt dialog and [createPrompt] *)

Section Creating.
Context {H : Type} {host_ops : Host H}.

(** X13: confirmed with a name while the folder path is empty or names no
    folder, the dialog shows the notice [refresh] shows in that state and
    does nothing else: it asks for no file. *)
Theorem newPrompt_without_folder (name : jsstring) (w : @State H) :
  name <> [] ->
  promptFolderPath w = [] \/
  (forall d, getAbstractFileByPath (host w) (promptFolderPath w) <> Some (AFolder d)) ->
  exists message,
    newPromptCallback name w = (Returned tt, emit (Notice message) w) /\
    refresh w = (Returned tt, emit (Notice message) w).
Proof.
  intros Hname Hbad. unfold newPromptCallback, refresh.
  destruct name as [|c name]; [done|].
  destruct (promptFolderPath w) as [|d path]; [by eexists|].
  destruct Hbad as [?|Hbad]; [done|].
  destruct (getAbstractFileByPath (host w) (d :: path)) as [[f|folder]|].
  - by eexists.
  - by destruct (Hbad folder).
  - by eexists.
Qed.

(** X14: when the vault rejects the file the dialog asks for, nothing
    tells the user: the callback throws after its request, without notice,
    refresh or render, and the Create button closes the dialog all the
    same. *)
Theorem newPrompt_create_rejected (name : jsstring) (w : @State H) (folder : TFolder) :
  name <> [] ->
  promptFolderPath w <> [] ->
  getAbstractFileByPath (host w) (promptFolderPath w) = Some (AFolder folder) ->
  create (host w) (name ++ js ".md") (js "### Version 1.0\n\nNew prompt content") = None ->
  let asked := emit (VaultCreate (name ++ js ".md")
                       (js "### Version 1.0\n\nNew prompt content")) w in
  newPromptCallback name w = (Thrown, asked) /\
  submitClick name w = (Returned tt, set_modalOpen false asked).
Proof.
  intros Hname Hne Hfolder Hcreate asked.
  assert (newPromptCallback name w = (Thrown, asked)) as E.
  { unfold newPromptCallback. destruct name as [|c name]; [done|].
    destruct (promptFolderPath w) as [|d path]; [done|].
    rewrite Hfolder. cbn [host emit]. by rewrite Hcreate. }
  split; [done|]. unfold submitClick. by rewrite E.
Qed.

(** X15: [createPrompt] of the plugin asks the vault for the folder
    exactly when nothing is at the folder path, for the file only when that
    did not fail, and then for one file, [<folder>/<name>.md] normalized,
    with the content given.  It shows no notice and leaves the view's
    prompts and items alone. *)
Theorem createPrompt_requests (name content : jsstring) (w : @State H) :
  let folderPath := normalizePath (host w) (promptFolderPath w) in
  exists o w' h1,
    createPrompt name content w = (o, w') /\
    prompts w' = prompts w /\ items w' = items w /\
    match getAbstractFileByPath (host w) folderPath with
    | Some _ =>
        h1 = host w /\
        effects w' = effects w ++
          [VaultCreate (normalizePath h1 (folderPath ++ js "/" ++ name ++ js ".md")) content]
    | None =>
        match createFolder (host w) folderPath with
        | Some h' =>
            h1 = h' /\
            effects w' = effects w ++
              [VaultCreateFolder folderPath;
               VaultCreate (normalizePath h1 (folderPath ++ js "/" ++ name ++ js ".md"))
                           content]
        | None =>
            o = Thrown /\ effects w' = effects w ++ [VaultCreateFolder folderPath]
        end
    end /\
    (o = Returned tt <->
     exists created,
       create h1 (normalizePath h1 (folderPath ++ js "/" ++ name ++ js ".md")) content
         = Some created /\ host w' = snd created /\
       (getAbstractFileByPath (host w) folderPath = None ->
        createFolder (host w) folderPath = Some h1)).
Proof.
  intros folderPath. unfold createPrompt. fold folderPath.
  destruct (getAbstractFileByPath (host w) folderPath) as [node|] eqn:El.
  - cbn [host emit].
    destruct (create (host w) _ content) as [[f h']|] eqn:Ec.
    + exists (Returned tt); eexists; exists (host w). split; [reflexivity|].
      cbn [prompts items effects host emit set_host]. repeat split; try done.
      intros _. exists (f, h'). by rewrite Ec.
    + exists Thrown; eexists; exists (host w). split; [reflexivity|].
      cbn [prompts items effects host emit set_host]. repeat split; try done.
      intros (created & Ec' & _). by rewrite Ec in Ec'.
  - destruct (createFolder (host w) folderPath) as [h1|] eqn:Ef.
    + cbn [host emit set_host].
      destruct (create h1 _ content) as [[f h']|] eqn:Ec.
      * exists (Returned tt); eexists; exists h1. split; [reflexivity|].
        cbn [prompts items effects host emit set_host]. rewrite <- app_assoc.
        repeat split; try done. intros _. exists (f, h'). by rewrite Ec.
      * exists Thrown; eexists; exists h1. split; [reflexivity|].
        cbn [prompts items effects host emit set_host]. rewrite <- app_assoc.
        repeat split; try done. intros (created & Ec' & _). by rewrite Ec in Ec'.
    + exists Thrown; eexists; exists (host w). split; [reflexivity|].
      cbn [prompts items effects host emit set_host]. repeat split; try done.
      intros (created & _ & _ & Hf). by specialize (Hf eq_refl).
Qed.
End Creating.

Lemma newPrompt_without_folder_witness :
  exists message,
    newPromptCallback (js "Greeting") (start sample_vault (js "missing"))
      = (Returned tt, emit (Notice message) (start sample_vault (js "missing"))).
Proof.
  destruct (newPrompt_without_folder (js "Greeting") (start sample_vault (js "missing")))
    as (message & E & _).
  - done.
  - right. intros d. by vm_compute.
  - by exists message.
Defined.

Lemma newPrompt_create_rejected_witness :
  effects (snd (submitClick (js "prompts/a") (start sample_vault (js "prompts")))) =
    [VaultCreate (js "prompts/a.md") (js "### Version 1.0\n\nNew prompt content")] /\
  modalOpen (snd (submitClick (js "prompts/a") (start sample_vault (js "prompts")))) = false.
Proof.
  destruct (newPrompt_create_rejected (js "prompts/a") (start sample_vault (js "prompts"))
              {| folder_path := js "prompts" |}) as [_ E].
  - done.
  - done.
  - by vm_compute.
  - by vm_compute.
  - by rewrite E.
Defined.

(** ** Records of the same version *)








Section Order.
Context {H : Type} {host_ops : Host H}.

End Order.

